(** * The feedback formatter of [App.tsx]

    The right pane of [App] renders the model's answer through a chain of
    seven [String.prototype.replace] calls.  This file embeds that chain:
    JavaScript strings are sequences of UTF-16 code units, every regular
    expression of the chain is a matcher tried at a position of the
    subject, and [replace] with a global pattern is the left-to-right scan
    that rewrites the leftmost matches without overlap. *)

From Stdlib Require Import String Ascii List NArith ZArith Lia Bool.
Import ListNotations.

Local Open Scope N_scope.

(** ** Strings *)

(** A JavaScript string: a list of 16-bit code units. *)
Definition str := list N.

(** The code units of an ASCII literal. *)
Definition u (s : string) : str := map N_of_ascii (list_ascii_of_string s).

(** The line feed, written [\n] in the source. *)
Definition nl : str := [10].

(** ECMAScript's LineTerminator: LF, CR, LS (U+2028) and PS (U+2029).
    Without the [s] flag [.] matches every code unit but these; with the
    [m] flag [^] matches at the start of the subject and after each. *)
Definition isLineTerminator (c : N) : bool :=
  (c =? 10) || (c =? 13) || (c =? 8232) || (c =? 8233).

(** The class [\d]: the digits [0] to [9]. *)
Definition isDigit (c : N) : bool := (48 <=? c) && (c <=? 57).

(** [starts_with p s]: the literal [p] matches at the head of [s]. *)
Fixpoint starts_with (p s : str) : bool :=
  match p, s with
  | [], _ => true
  | _ :: _, [] => false
  | a :: p', b :: s' => (a =? b) && starts_with p' s'
  end.

(** [occurs p s]: the literal [p] matches somewhere in [s]. *)
Fixpoint occurs (p s : str) : bool :=
  starts_with p s ||
  match s with
  | [] => false
  | _ :: s' => occurs p s'
  end.

(** ** Pieces of the regular expressions *)

(** A greedy dot-star that ends a pattern: the rest of the line. *)
Fixpoint greedy_dot (s : str) : str :=
  match s with
  | [] => []
  | c :: s' => if isLineTerminator c then [] else c :: greedy_dot s'
  end.

(** A lazy dot-star followed by the literal [close], which ends the
    pattern: the shortest run of non-terminators after which [close] matches. *)
Fixpoint lazy_dot_then (close s : str) : option str :=
  if starts_with close s then Some []
  else match s with
       | [] => None
       | c :: s' =>
           if isLineTerminator c then None
           else option_map (cons c) (lazy_dot_then close s')
       end.

(** [\d+]: the longest run of digits.  Giving a digit back leaves a digit
    as the next code unit, which the [\.] that follows cannot match, so the
    longest run is the only one that can lead to a match. *)
Fixpoint digits (s : str) : str :=
  match s with
  | [] => []
  | c :: s' => if isDigit c then c :: digits s' else []
  end.

(** ** Matchers

    A matcher is tried at one position: it is told whether the position is
    a line start (for [^] under the [m] flag), sees the rest of the
    subject, and returns the length of the match and capture group 1. *)
Definition matcher := bool -> str -> option (nat * str).

(** Line 235: two stars, group 1 a lazy dot-star, two stars. *)
Definition re_bold : matcher := fun _ s =>
  if starts_with (u "**") s then
    match lazy_dot_then (u "**") (skipn 2 s) with
    | Some g => Some (2 + length g + 2, g)%nat
    | None => None
    end
  else None.

(** Line 236: at a line start, hyphen and space, then group 1 a greedy
    dot-star. *)
Definition re_bullet : matcher := fun bol s =>
  if bol && starts_with (u "- ") s then
    let g := greedy_dot (skipn 2 s) in Some (2 + length g, g)%nat
  else None.

(** Line 237: at a line start, [\d+], a period and a space, then group 1
    a greedy dot-star. *)
Definition re_numbered : matcher := fun bol s =>
  let ds := digits s in
  let r := skipn (length ds) s in
  if bol && negb (Nat.eqb (length ds) 0) && starts_with (u ". ") r then
    let g := greedy_dot (skipn 2 r) in Some (length ds + 2 + length g, g)%nat
  else None.

(** Lines 238 to 240: group 1 the literal [g], then the literal [rest]. *)
Definition re_literal (g rest : str) : matcher := fun _ s =>
  if starts_with (g ++ rest) s then Some (length (g ++ rest), g) else None.

(** Line 241: [<li>], a lazy dot-star, [</li>]; no capture group. *)
Definition re_item : matcher := fun _ s =>
  if starts_with (u "<li>") s then
    match lazy_dot_then (u "</li>") (skipn 4 s) with
    | Some g => Some (4 + length g + 5, [])%nat
    | None => None
    end
  else None.

(** ** [String.prototype.replace] with a global pattern *)

(** What stands in for a match: a function of the matched text, capture
    group 1, the offset of the match and the whole subject, as the
    callback form of [replace] receives them. *)
Definition replacer := str -> str -> nat -> str -> str.

(** A replacement string [pre$1post]. *)
Definition template (pre post : str) : replacer :=
  fun _ g _ _ => pre ++ g ++ post.

(** The scan.  [s] is what is left of [original] from [offset] on, [bol]
    says whether [offset] is a line start, and [skip] counts the code
    units of the last match still to be passed over.  Where the pattern
    matches, the replacement is emitted and the search resumes after the
    match; elsewhere the code unit is copied.  None of the seven patterns
    matches the empty string, so a match of length zero is read as no
    match. *)
Fixpoint replace_from (re : matcher) (f : replacer) (original : str)
    (bol : bool) (offset skip : nat) (s : str) : str :=
  match s with
  | [] => []
  | c :: s' =>
      match skip with
      | S k => replace_from re f original (isLineTerminator c) (S offset) k s'
      | O =>
          match re bol s with
          | Some (S n, g) =>
              f (firstn (S n) s) g offset original
                ++ replace_from re f original (isLineTerminator c) (S offset) n s'
          | _ => c :: replace_from re f original (isLineTerminator c) (S offset) 0 s'
          end
      end
  end.

Definition replace (re : matcher) (f : replacer) (s : str) : str :=
  replace_from re f s true 0 0 s.

(** ** The callback of the last pass *)

(** [s.lastIndexOf(p)]: the largest index at which [p] occurs in [s], or
    [-1].  [i] is the index of the head of [s], [last] the result so far. *)
Fixpoint lastIndexOf_from (p s : str) (i last : Z) : Z :=
  match s with
  | [] => if starts_with p [] then i else last
  | _ :: s' =>
      lastIndexOf_from p s' (i + 1) (if starts_with p s then i else last)
  end.

Definition lastIndexOf (p s : str) : Z := lastIndexOf_from p s 0 (-1).

(** [match.match(/^- /)] is not null. *)
Definition test_bullet (m : str) : bool := starts_with (u "- ") m.

(** [match.match(/^\d+\. /)] is not null. *)
Definition test_numbered (m : str) : bool :=
  let ds := digits m in
  negb (Nat.eqb (length ds) 0) && starts_with (u ". ") (skipn (length ds) m).

(** The arrow function [(match, offset, original) => ...]. *)
Definition wrap_callback : replacer := fun m _ offset original =>
  let before := firstn offset original in
  let parentUl := lastIndexOf (u "<ul>") before in
  let parentOl := lastIndexOf (u "<ol>") before in
  let lastListEnd :=
    Z.max (lastIndexOf (u "</ul>") before) (lastIndexOf (u "</ol>") before) in
  if ((parentUl >? lastListEnd) || (parentOl >? lastListEnd))%Z then m
  else if test_bullet m then u "<ul>" ++ m ++ u "</ul>"
  else if test_numbered m then u "<ol>" ++ m ++ u "</ol>"
  else m.

(** ** The seven passes and their chain *)

(** Line 235, replacement [<strong>$1</strong>]: bold text. *)
Definition boldPass : str -> str :=
  replace re_bold (template (u "<strong>") (u "</strong>")).

(** Line 236, replacement [<li>$1</li>]: bullet points. *)
Definition bulletPass : str -> str :=
  replace re_bullet (template (u "<li>") (u "</li>")).

(** Line 237, replacement [<li>$1</li>]: numbered list items. *)
Definition numberedPass : str -> str :=
  replace re_numbered (template (u "<li>") (u "</li>")).

(** Line 238, [</strong>\n<li>] becomes [$1<ul><li>]: start ul after bold. *)
Definition openAfterBoldPass : str -> str :=
  replace (re_literal (u "</strong>") (nl ++ u "<li>"))
          (template [] (u "<ul><li>")).

(** Line 239, [</li>\n<strong>] becomes [</li></ul><strong>]: end ul before
    the next bold section. *)
Definition closeBeforeBoldPass : str -> str :=
  replace (re_literal (u "</li>") (nl ++ u "<strong>"))
          (fun _ _ _ _ => u "</li></ul><strong>").

(** Line 240, [</li>\n\n<li>] becomes [</li></ul><strong>]: an empty line
    before a new list item. *)
Definition blankLinePass : str -> str :=
  replace (re_literal (u "</li>") (nl ++ nl ++ u "<li>"))
          (fun _ _ _ _ => u "</li></ul><strong>").

(** Lines 241 to 256: every item element goes through the callback. *)
Definition wrapPass : str -> str := replace re_item wrap_callback.

(** The passes that turn markers into elements, line by line. *)
Definition classifyPass (s : str) : str := numberedPass (bulletPass (boldPass s)).

(** The passes that rewrite the boundary between two lines. *)
Definition boundaryPass (s : str) : str :=
  blankLinePass (closeBeforeBoldPass (openAfterBoldPass s)).

(** The value handed to [dangerouslySetInnerHTML]. *)
Definition format (feedback : str) : str :=
  wrapPass (boundaryPass (classifyPass feedback)).

(** The chain without its last pass. *)
Definition format_unwrapped (feedback : str) : str :=
  boundaryPass (classifyPass feedback).


(** ** Reading the output *)

Inductive listKind := Unordered | Ordered.

(** [no_stray_close open s]: reading [s] from left to right with the list
    containers [open] so far, innermost first, every closing container tag
    closes the innermost open container, which is of its kind. *)
Fixpoint no_stray_close (open : list listKind) (s : str) : bool :=
  match s with
  | [] => true
  | _ :: s' =>
      if starts_with (u "<ul>") s then no_stray_close (Unordered :: open) s'
      else if starts_with (u "<ol>") s then no_stray_close (Ordered :: open) s'
      else if starts_with (u "</ul>") s then
        match open with
        | Unordered :: open' => no_stray_close open' s'
        | _ => false
        end
      else if starts_with (u "</ol>") s then
        match open with
        | Ordered :: open' => no_stray_close open' s'
        | _ => false
        end
      else no_stray_close open s'
  end.

(** The tags of a list container and the element of an item. *)
Definition open_tag (k : listKind) : str :=
  match k with Unordered => u "<ul>" | Ordered => u "<ol>" end.

Definition close_tag (k : listKind) : str :=
  match k with Unordered => u "</ul>" | Ordered => u "</ol>" end.

Definition item (content : str) : str := u "<li>" ++ content ++ u "</li>".

(** [held_in_one_container items out]: [out] has a container, opened and
    closed, with no closing container tag in between, in which the element
    of every item of [items] occurs. *)
Definition held_in_one_container (items : list str) (out : str) : Prop :=
  exists k pre body post,
    out = pre ++ open_tag k ++ body ++ close_tag k ++ post
    /\ occurs (close_tag Unordered) body = false
    /\ occurs (close_tag Ordered) body = false
    /\ forallb (fun c => occurs (item c) body) items = true.

(** The lines of a string, split at the line terminators. *)
Fixpoint lines (s : str) : list str :=
  match s with
  | [] => [[]]
  | c :: s' =>
      if isLineTerminator c then [] :: lines s'
      else match lines s' with
           | l :: ls => (c :: l) :: ls
           | [] => [[c]]
           end
  end.

(** A line that begins with hyphen and space. *)
Definition bullet_line (l : str) : bool := starts_with (u "- ") l.

(** A line that begins with digits, a period and a space. *)
Definition numbered_line (l : str) : bool :=
  negb (Nat.eqb (length (digits l)) 0)
  && starts_with (u ". ") (skipn (length (digits l)) l).

(** A string without markers: no two adjacent stars, and no line that
    begins as a bullet or a numbered item. *)
Definition marker_free (s : str) : bool :=
  negb (occurs (u "**") s)
  && forallb (fun l => negb (bullet_line l) && negb (numbered_line l)) (lines s).

(** The three texts that the boundary passes look for. *)
Definition boundary_free (s : str) : bool :=
  negb (occurs (u "</strong>" ++ nl ++ u "<li>") s)
  && negb (occurs (u "</li>" ++ nl ++ u "<strong>") s)
  && negb (occurs (u "</li>" ++ nl ++ nl ++ u "<li>") s).

(** [never_matches re bol s]: [re] matches at no position of [s], whose
    head is a line start when [bol] is true. *)
Fixpoint never_matches (re : matcher) (bol : bool) (s : str) : bool :=
  match s with
  | [] => true
  | c :: s' =>
      match re bol s with
      | Some _ => false
      | None => never_matches re (isLineTerminator c) s'
      end
  end.

(** A literal without a line terminator. *)
Definition no_terminator (p : str) : bool :=
  forallb (fun c => negb (isLineTerminator c)) p.

(** The line-start flag after the code units [m] have been passed. *)
Definition bol_after (bol : bool) (m : str) : bool :=
  fold_left (fun _ c => isLineTerminator c) m bol.

(** A matcher stays on its line when what follows the next line terminator
    does not change its answer, and its match lies within the subject. *)
Definition line_local (re : matcher) : Prop :=
  (forall bol s t rest,
      isLineTerminator t = true -> re bol (s ++ t :: rest) = re bol s)
  /\ (forall bol s n g, re bol s = Some (n, g) -> (n <= length s)%nat).

(** Lines joined by line feeds. *)
Fixpoint join_lines (ls : list str) : str :=
  match ls with
  | [] => []
  | [l] => l
  | l :: ls' => l ++ nl ++ join_lines ls'
  end.

(** [one_line_lookback fmt]: what [fmt] emits for a line is a function of
    that line and of the line before it.  The text emitted for the last
    line [b] of an input is what the output gains when [b] is appended to
    the input; it must be the same fragment after every beginning [p]. *)
Definition one_line_lookback (fmt : str -> str) : Prop :=
  exists frag : str -> str -> str,
    forall p a b,
      no_terminator a = true -> no_terminator b = true ->
      fmt (p ++ nl ++ a ++ nl ++ b) = fmt (p ++ nl ++ a) ++ frag a b.

(** ** The line classifier the chain amounts to *)

(** What the three classifying passes make of one line: a line that
    begins with hyphen-space, or with digits-period-space, becomes an item
    element around the rest of the line, and bold spans are rewritten in
    every line. *)
Definition classify_line (l : str) : str :=
  if bullet_line l then item (boldPass (skipn 2 l))
  else if numbered_line l then
    item (boldPass (skipn (length (digits l) + 2) l))
  else boldPass l.

(** ** The tags of the output *)

(** [tags_only T s]: wherever [s] has the code unit [<], one of the
    tags of [T] begins there. *)
Fixpoint tags_only (T : list str) (s : str) : bool :=
  match s with
  | [] => true
  | c :: s' =>
      (if c =? 60 then existsb (fun t => starts_with t s) T else true)
      && tags_only T s'
  end.

(** The tags that occur in the replacement texts of lines 235 to 240. *)
Definition chain_tags : list str :=
  [u "<strong>"; u "</strong>"; u "<li>"; u "</li>"; u "<ul>"; u "</ul>"].

(** [clash t p]: the texts [t] and [p] differ at a position both have. *)
Fixpoint clash (t p : str) : bool :=
  match t, p with
  | a :: t', b :: p' => negb (a =? b) || clash t' p'
  | _, _ => false
  end.

(** A tag the passes cannot take apart: it has no line terminator and no
    star, and behind its first code unit nothing a pattern begins with
    (star, hyphen, digit, [<]). *)
Definition tag_shaped (t : str) : bool :=
  forallb (fun c => negb (isLineTerminator c) && negb (c =? 42)) t
  && forallb (fun c => negb ((c =? 42) || (c =? 45) || isDigit c || (c =? 60)))
             (tl t).

(** The bold element around [content]. *)
Definition strong (content : str) : str :=
  u "<strong>" ++ content ++ u "</strong>".

(** The lines [ls], each behind a line feed, before [tail]. *)
Definition after_feeds (ls : list str) (tail : str) : str :=
  fold_right (fun l acc => nl ++ l ++ acc) tail ls.

(** Text of one line without [<] and without a star. *)
Definition plain_text (c : str) : bool :=
  no_terminator c && negb (occurs (u "<") c) && negb (occurs (u "*") c).

(** What a list line begins with: hyphen and space, or digits, a period
    and a space. *)
Inductive marker := Bullet | Number (ds : str).

Definition marker_text (m : marker) : str :=
  match m with
  | Bullet => u "- "
  | Number ds => ds ++ u ". "
  end.

Definition marker_ok (m : marker) : bool :=
  match m with
  | Bullet => true
  | Number ds => negb (Nat.eqb (length ds) 0) && forallb isDigit ds
  end.

(** A list line and a heading line, as the system instruction of the
    service asks the model to write them. *)
Definition item_line (mc : marker * str) : str := marker_text (fst mc) ++ snd mc.

Definition heading_line (title : str) : str := u "**" ++ title ++ u "**".

(** ** The chain as JavaScript evaluates it *)

(** A value of the state [feedback], of type string or null. *)
Inductive js_value :=
| JNull
| JString (s : str).

(** How an expression completes: with a value, or by throwing the
    TypeError of a method call on null. *)
Inductive completion (A : Type) :=
| Normal (a : A)
| TypeError.

Arguments Normal {A} a.
Arguments TypeError {A}.

(** [receiver.replace(re, f)]: reading the method of null throws; on a
    string the call returns a string.  The replacement templates and the
    callback of line 241 work on the strings [replace] hands them, and the
    callback uses the results of [match.match] as conditions only, so
    nothing inside the call throws. *)
Definition method_replace (receiver : js_value) (re : matcher) (f : replacer)
  : completion js_value :=
  match receiver with
  | JString s => Normal (JString (replace re f s))
  | JNull => TypeError
  end.

Definition then_replace (c : completion js_value) (re : matcher) (f : replacer)
  : completion js_value :=
  match c with
  | Normal v => method_replace v re f
  | TypeError => TypeError
  end.

(** The expression of lines 234 to 256 on a value of [feedback]. *)
Definition chain (feedback : js_value) : completion js_value :=
  then_replace
    (then_replace
      (then_replace
        (then_replace
          (then_replace
            (then_replace
              (method_replace feedback
                 re_bold (template (u "<strong>") (u "</strong>")))
              re_bullet (template (u "<li>") (u "</li>")))
            re_numbered (template (u "<li>") (u "</li>")))
          (re_literal (u "</strong>") (nl ++ u "<li>"))
          (template [] (u "<ul><li>")))
        (re_literal (u "</li>") (nl ++ u "<strong>"))
        (fun _ _ _ _ => u "</li></ul><strong>"))
      (re_literal (u "</li>") (nl ++ nl ++ u "<li>"))
      (fun _ _ _ _ => u "</li></ul><strong>"))
    re_item wrap_callback.

(** The condition of line 229: null and the empty string are falsy. *)
Definition truthy (v : js_value) : bool :=
  match v with
  | JString (_ :: _) => true
  | _ => false
  end.

(** What the right pane gets: the value for [__html], or the paragraph
    of line 259. *)
Inductive pane_content :=
| InnerHtml (v : js_value)
| PlaceholderText.

(** Lines 229 to 262: [feedback ? (the chain) : (the placeholder)]. *)
Definition right_pane (feedback : js_value) : completion pane_content :=
  if truthy feedback then
    match chain feedback with
    | Normal v => Normal (InnerHtml v)
    | TypeError => TypeError
    end
  else Normal PlaceholderText.

(** * The service and the component around the chain *)

(** ** JavaScript values and promises *)

(** What a [throw] or a [reject] carries: an [Error] with its message, or
    any other value, known by what [String(value)] gives. *)
Inductive thrown :=
| ErrorObject (message : str)
| OtherValue (shown : str).

(** A settled promise. *)
Inductive settled (A : Type) :=
| Resolved (value : A)
| Rejected (reason : thrown).

Arguments Resolved {A} value.
Arguments Rejected {A} reason.

(** A string-valued expression that may be [undefined]; [None] is
    [undefined].  [falsy] is [!value]: undefined or the empty string. *)
Definition falsy (value : option str) : bool :=
  match value with
  | None => true
  | Some [] => true
  | Some (_ :: _) => false
  end.

(** ** [convertFileToBase64] *)

(** [s.split(',')]: the pieces of [s] between the occurrences of the
    separator; never an empty array. *)
Fixpoint split_on (sep : N) (s : str) : list str :=
  match s with
  | [] => [[]]
  | c :: s' =>
      if c =? sep then [] :: split_on sep s'
      else match split_on sep s' with
           | piece :: pieces => (c :: piece) :: pieces
           | [] => [[c]]
           end
  end.

(** [reader.result.split(',')[1]]: the second piece, or [undefined]. *)
Definition base64_part (result : str) : option str :=
  nth_error (split_on 44 result) 1.

(** How the read of the file ends: [loadend] with the data URL as result,
    [error] (then [loadend] with a null result), or [loadend] with a result
    that is no string and no error before. *)
Inductive read_end :=
| ReadString (result : str)
| ReadError (event : str)
| ReadOther.

(** The promise made by [convertFileToBase64].  On an error the handler
    of [onerror] rejects first, with the event, and the later rejection of
    [onloadend] is lost on the settled promise. *)
Definition convertFileToBase64 (r : read_end) : settled (option str) :=
  match r with
  | ReadString result => Resolved (base64_part result)
  | ReadError event => Rejected (OtherValue event)
  | ReadOther =>
      Rejected (ErrorObject (u "Failed to convert file to base64 string."))
  end.

(** ** [services/geminiService.ts] *)

(** A part of the request: inline data with its MIME type, or text. *)
Inductive part :=
| InlineData (data : option str) (mimeType : str)
| TextPart (text : str).

(** The request of [generateContent]; the configuration is a constant of
    the source and is left out. *)
Record request := { model : str; parts : list part }.

(** What the call of the model ends with: a response, whose [text] may be
    undefined, or a rejection. *)
Inductive api_end :=
| Responded (text : option str)
| ApiFailed (reason : thrown).

Definition key_missing : str :=
  u "VITE_GEMINI_API_KEY is not defined in environment variables or missing VITE_ prefix.".

(** [getGeminiClient]: the key of the environment, or the error thrown
    when it is undefined or empty. *)
Definition getGeminiClient (apiKey : option str) : settled str :=
  match apiKey with
  | Some (c :: k) => Resolved (c :: k)
  | _ => Rejected (ErrorObject key_missing)
  end.

(** The message of the error thrown by the [catch] block. *)
Definition failure_message (inner : str) : str :=
  u "Failed to generate feedback: " ++ inner
    ++ u ". Please try again. If the issue persists, ensure your video file is valid and API_KEY is correctly configured.".

(** [error instanceof Error ? error.message : String(error)] *)
Definition message_of (t : thrown) : str :=
  match t with
  | ErrorObject message => message
  | OtherValue shown => shown
  end.

(** The request built from the video data and the prompt. *)
Definition feedback_request (videoData : option (option str * str))
    (prompt : str) : request :=
  {| model := u "gemini-2.5-flash";
     parts :=
       (match videoData with
        | Some (base64, mimeType) => [InlineData base64 mimeType]
        | None => []
        end) ++ [TextPart prompt] |}.

(** [generateVideoFeedback]: the requests sent, and how the promise
    settles.  [api] is what the model answers to a request.  The client is
    made before the [try] block, so the error of a missing key is not
    wrapped; inside the block an empty text is thrown as an error of its
    own, and every error is caught and thrown again in a new message. *)
Definition generateVideoFeedback (apiKey : option str) (api : request -> api_end)
    (videoData : option (option str * str)) (prompt : str)
  : list request * settled str :=
  match getGeminiClient apiKey with
  | Rejected e => ([], Rejected e)
  | Resolved _ =>
      let req := feedback_request videoData prompt in
      ([req],
       match api req with
       | Responded (Some (c :: t)) => Resolved (c :: t)
       | Responded _ =>
           Rejected (ErrorObject
             (failure_message (u "No text feedback received from the model.")))
       | ApiFailed reason =>
           Rejected (ErrorObject (failure_message (message_of reason)))
       end)
  end.

(** ** The component [App] *)

(** A file of the input: its name and its MIME type. *)
Record file := { file_name : str; file_type : str }.

(** The state of [App], one field for each [useState]. *)
Record app_state := {
  selectedVideoFile : option file;
  videoPreviewUrl : option nat;
  prompt : str;
  feedback : option str;
  isLoading : bool;
  error : option str
}.

(** The object URLs of the browser: the live ones and the next fresh one.
    An object URL is known by its number and is a non-empty string. *)
Record url_store := { live : list nat; next_url : nat }.

(** A call of [handleGenerateFeedback] that waits for its promises, with
    the file and the prompt its closure holds. *)
Record job := { job_file : file; job_prompt : str }.

Record world := {
  state : app_state;
  urls : url_store;
  pending : list job;
  sent : list request
}.

Definition default_prompt : str :=
  u "Me d" ++ [234] ++ u " feedback sobre como melhorar este v" ++ [237] ++ u "deo".

Definition initial_state : app_state :=
  {| selectedVideoFile := None; videoPreviewUrl := None;
     prompt := default_prompt; feedback := None;
     isLoading := false; error := None |}.

Definition initial_world : world :=
  {| state := initial_state; urls := {| live := []; next_url := 0 |};
     pending := []; sent := [] |}.

Definition revokeObjectURL (url : nat) (s : url_store) : url_store :=
  {| live := filter (fun x => negb (Nat.eqb x url)) (live s);
     next_url := next_url s |}.

Definition createObjectURL (s : url_store) : nat * url_store :=
  (next_url s, {| live := next_url s :: live s; next_url := S (next_url s) |}).

(** [handleVideoSelected] *)
Definition handleVideoSelected (f : option file) (w : world) : world :=
  let st := state w in
  let store1 :=
    match videoPreviewUrl st with
    | Some url => revokeObjectURL url (urls w)
    | None => urls w
    end in
  let '(preview, store2) :=
    match f with
    | Some _ => let '(url, s) := createObjectURL store1 in (Some url, s)
    | None => (None, store1)
    end in
  {| state := {| selectedVideoFile := f; videoPreviewUrl := preview;
               prompt := prompt st; feedback := None;
               isLoading := isLoading st; error := None |};
     urls := store2; pending := pending w; sent := sent w |}.

Definition no_video : str :=
  u "Por favor, fa" ++ [231] ++ u "a upload de um v" ++ [237] ++ u "deo primeiro.".

Definition generic_failure : str :=
  u "Ocorreu um erro ao gerar o feedback. Tente novamente.".

(** [handleGenerateFeedback] up to its first [await]. *)
Definition handleGenerateFeedback (w : world) : world :=
  let st := state w in
  match selectedVideoFile st with
  | None =>
      {| state := {| selectedVideoFile := selectedVideoFile st;
                   videoPreviewUrl := videoPreviewUrl st;
                   prompt := prompt st; feedback := feedback st;
                   isLoading := isLoading st; error := Some no_video |};
         urls := urls w; pending := pending w; sent := sent w |}
  | Some f =>
      {| state := {| selectedVideoFile := selectedVideoFile st;
                   videoPreviewUrl := videoPreviewUrl st;
                   prompt := prompt st; feedback := None;
                   isLoading := true; error := None |};
         urls := urls w;
         pending := pending w ++ [{| job_file := f; job_prompt := prompt st |}];
         sent := sent w |}
  end.

(** The two awaited promises of a job: the file is read, and when that
    resolves the service is called with the data and the type of the file. *)
Definition run_job (apiKey : option str) (api : request -> api_end)
    (r : read_end) (j : job) : list request * settled str :=
  match convertFileToBase64 r with
  | Rejected e => ([], Rejected e)
  | Resolved base64 =>
      generateVideoFeedback apiKey api
        (Some (base64, file_type (job_file j))) (job_prompt j)
  end.

(** The rest of [handleGenerateFeedback], run when the promises of the
    oldest waiting job have settled: [setFeedback] or the [catch] block,
    then the [finally] block. *)
Definition finish_job (apiKey : option str) (api : request -> api_end)
    (r : read_end) (w : world) : world :=
  match pending w with
  | [] => w
  | j :: rest =>
      let st := state w in
      let '(reqs, outcome) := run_job apiKey api r j in
      {| state :=
           match outcome with
           | Resolved t =>
               {| selectedVideoFile := selectedVideoFile st;
                  videoPreviewUrl := videoPreviewUrl st;
                  prompt := prompt st; feedback := Some t;
                  isLoading := false; error := error st |}
           | Rejected e =>
               {| selectedVideoFile := selectedVideoFile st;
                  videoPreviewUrl := videoPreviewUrl st;
                  prompt := prompt st; feedback := feedback st;
                  isLoading := false;
                  error := Some (match e with
                                 | ErrorObject message => message
                                 | OtherValue _ => generic_failure
                                 end) |}
           end;
         urls := urls w; pending := rest; sent := sent w ++ reqs |}
  end.

(** What the user and the environment do.  [Settle r answer]: the read of
    the file of the waiting call has ended with [r] and, if a request was
    sent, the model has ended it with [answer]. *)
Inductive event :=
| SelectVideo (f : option file)
| EditPrompt (p : str)
| ClickGenerate
| Settle (r : read_end) (answer : api_end).

(** The button is [disabled={isLoading || !selectedVideoFile}]. *)
Definition button_enabled (st : app_state) : bool :=
  negb (isLoading st)
  && match selectedVideoFile st with Some _ => true | None => false end.

Definition step (apiKey : option str) (e : event) (w : world) : world :=
  match e with
  | SelectVideo f => handleVideoSelected f w
  | EditPrompt p =>
      {| state := {| selectedVideoFile := selectedVideoFile (state w);
                     videoPreviewUrl := videoPreviewUrl (state w);
                     prompt := p; feedback := feedback (state w);
                     isLoading := isLoading (state w); error := error (state w) |};
         urls := urls w; pending := pending w; sent := sent w |}
  | ClickGenerate =>
      if button_enabled (state w) then handleGenerateFeedback w else w
  | Settle r answer => finish_job apiKey (fun _ => answer) r w
  end.

Definition run (apiKey : option str) (es : list event) (w : world) : world :=
  fold_left (fun w e => step apiKey e w) es w.

(** The right pane: the formatted feedback, or the placeholder when
    [feedback] is null or empty. *)
Inductive pane :=
| Html (html : str)
| Placeholder.

Definition feedback_pane (st : app_state) : pane :=
  match feedback st with
  | Some (c :: t) => Html (format (c :: t))
  | _ => Placeholder
  end.

(** ** What every reachable state of the component satisfies *)

Definition is_some {A} (o : option A) : bool :=
  match o with Some _ => true | None => false end.

(** A preview URL exists exactly when a file is selected, and it is the
    one live object URL; at most one call waits, [isLoading] says whether
    one does, and while it waits feedback and error are null; feedback and
    error are never both set; a feedback that is set is not empty. *)
Definition reachable_shape (w : world) : Prop :=
  is_some (videoPreviewUrl (state w)) = is_some (selectedVideoFile (state w))
  /\ live (urls w)
     = match videoPreviewUrl (state w) with Some url => [url] | None => [] end
  /\ ((pending w = [] /\ isLoading (state w) = false)
      \/ ((exists j, pending w = [j]) /\ isLoading (state w) = true
          /\ feedback (state w) = None /\ error (state w) = None))
  /\ (feedback (state w) = None \/ error (state w) = None)
  /\ feedback (state w) <> Some [].

(** [sent_from es req]: the request [req] names the model of the source
    and has two parts: the inline data, which is the second piece of a
    read result that an event of [es] delivered, under the MIME type of a
    file that an event of [es] selected, and then the text, which is the
    first prompt or one that an event of [es] typed. *)
Definition sent_from (es : list event) (req : request) : Prop :=
  model req = u "gemini-2.5-flash"
  /\ exists f p result answer,
       In (SelectVideo (Some f)) es
       /\ (p = default_prompt \/ In (EditPrompt p) es)
       /\ In (Settle (ReadString result) answer) es
       /\ parts req = [InlineData (base64_part result) (file_type f); TextPart p].

(** [traced es w]: the selected file, the prompt and the waiting calls of
    [w] come from the events [es], and so does every request sent. *)
Definition traced (es : list event) (w : world) : Prop :=
  (forall f, selectedVideoFile (state w) = Some f -> In (SelectVideo (Some f)) es)
  /\ (prompt (state w) = default_prompt \/ In (EditPrompt (prompt (state w))) es)
  /\ Forall (fun j => In (SelectVideo (Some (job_file j))) es
                      /\ (job_prompt j = default_prompt
                          \/ In (EditPrompt (job_prompt j)) es))
            (pending w)
  /\ Forall (sent_from es) (sent w).

(** * Properties *)


(** ** Literals and prefixes *)

Lemma starts_with_app (p r : str) : starts_with p (p ++ r) = true.
Proof.
  induction p as [|a p IH]; simpl; [reflexivity|].
  now rewrite N.eqb_refl.
Qed.

Lemma starts_with_inv (p s : str) :
  starts_with p s = true -> exists r, s = p ++ r.
Proof.
  revert s; induction p as [|a p IH]; intros s H.
  - now exists s.
  - destruct s as [|b s]; simpl in H; [discriminate|].
    apply andb_true_iff in H as [Hab Hp].
    apply N.eqb_eq in Hab; subst b.
    destruct (IH _ Hp) as [r ->]. now exists r.
Qed.

Lemma starts_with_length (p s : str) :
  starts_with p s = true -> (length p <= length s)%nat.
Proof.
  intros H. destruct (starts_with_inv _ _ H) as [r ->].
  rewrite length_app. lia.
Qed.

Lemma starts_with_firstn (p s : str) (k : nat) :
  starts_with p s = true -> (length p <= k)%nat ->
  starts_with p (firstn k s) = true.
Proof.
  intros H Hk. destruct (starts_with_inv _ _ H) as [r ->].
  rewrite firstn_app.
  rewrite firstn_all2 by exact Hk.
  apply starts_with_app.
Qed.

Lemma starts_with_app_long (p x y : str) :
  (length p <= length x)%nat -> starts_with p (x ++ y) = starts_with p x.
Proof.
  revert x; induction p as [|a p IH]; intros x H; [reflexivity|].
  destruct x as [|b x]; cbn [length] in H; [lia|].
  cbn [app starts_with]. rewrite IH by lia. reflexivity.
Qed.

Lemma occurs_cons (p : str) (c : N) (s : str) :
  occurs p (c :: s) = false ->
  starts_with p (c :: s) = false /\ occurs p s = false.
Proof. cbn [occurs]. apply orb_false_iff. Qed.

Lemma occurs_suffix (p x y : str) :
  occurs p (x ++ y) = false -> occurs p y = false.
Proof.
  induction x as [|a x IH]; intros H; [exact H|].
  apply IH. now apply occurs_cons in H.
Qed.

Lemma occurs_mid (p x y : str) : occurs p (x ++ p ++ y) = true.
Proof.
  induction x as [|a x IH].
  - destruct (p ++ y) eqn:E; cbn [app occurs]; rewrite <- E;
      now rewrite starts_with_app.
  - cbn [app occurs]. rewrite IH. apply orb_true_r.
Qed.

(** ** Line terminators *)

Lemma digit_not_terminator (c : N) :
  isDigit c = true -> isLineTerminator c = false.
Proof.
  unfold isDigit, isLineTerminator. intros H.
  apply andb_true_iff in H as [H1 H2].
  apply N.leb_le in H1, H2.
  repeat (apply orb_false_iff; split); apply N.eqb_neq; lia.
Qed.

Lemma terminator_not_digit (c : N) :
  isLineTerminator c = true -> isDigit c = false.
Proof.
  intros H. destruct (isDigit c) eqn:E; [|reflexivity].
  apply digit_not_terminator in E. congruence.
Qed.

Lemma starts_with_line (p s : str) (t : N) (rest : str) :
  no_terminator p = true -> isLineTerminator t = true ->
  starts_with p (s ++ t :: rest) = starts_with p s.
Proof.
  intros Hp Ht. revert s; induction p as [|a p IH]; intros s; [reflexivity|].
  cbn [no_terminator forallb] in Hp. apply andb_true_iff in Hp as [Ha Hp].
  destruct s as [|c s]; cbn [app starts_with].
  - destruct (N.eqb_spec a t) as [->|]; [|reflexivity].
    now rewrite Ht in Ha.
  - now rewrite (IH Hp).
Qed.

Lemma starts_with_greedy_dot (p s : str) :
  no_terminator p = true ->
  starts_with p (greedy_dot s) = starts_with p s.
Proof.
  revert s; induction p as [|a p IH]; intros s Hp; [reflexivity|].
  cbn [no_terminator forallb] in Hp. apply andb_true_iff in Hp as [Ha Hp].
  destruct s as [|c s]; [reflexivity|].
  cbn [greedy_dot]. destruct (isLineTerminator c) eqn:Ec; cbn [starts_with].
  - destruct (N.eqb_spec a c) as [->|]; [|reflexivity].
    now rewrite Ec in Ha.
  - now rewrite IH.
Qed.

Lemma greedy_dot_line (s : str) (t : N) (rest : str) :
  isLineTerminator t = true -> greedy_dot (s ++ t :: rest) = greedy_dot s.
Proof.
  intros Ht. induction s as [|c s IH]; cbn [app greedy_dot].
  - now rewrite Ht.
  - now rewrite IH.
Qed.

Lemma greedy_dot_length (s : str) : (length (greedy_dot s) <= length s)%nat.
Proof.
  induction s as [|c s IH]; cbn [greedy_dot]; [lia|].
  destruct (isLineTerminator c); cbn [length]; lia.
Qed.

Lemma digits_line (s : str) (t : N) (rest : str) :
  isLineTerminator t = true -> digits (s ++ t :: rest) = digits s.
Proof.
  intros Ht. induction s as [|c s IH]; cbn [app digits].
  - now rewrite (terminator_not_digit _ Ht).
  - now rewrite IH.
Qed.

Lemma digits_length (s : str) : (length (digits s) <= length s)%nat.
Proof.
  induction s as [|c s IH]; cbn [digits]; [lia|].
  destruct (isDigit c); cbn [length]; lia.
Qed.

Lemma lazy_dot_then_line (p s : str) (t : N) (rest : str) :
  no_terminator p = true -> isLineTerminator t = true ->
  lazy_dot_then p (s ++ t :: rest) = lazy_dot_then p s.
Proof.
  intros Hp Ht. induction s as [|c s IH].
  - pose proof (starts_with_line p [] t rest Hp Ht) as E. cbn [app] in E.
    cbn [app lazy_dot_then]. rewrite E, Ht. reflexivity.
  - pose proof (starts_with_line p (c :: s) t rest Hp Ht) as E. cbn [app] in E.
    cbn [app lazy_dot_then]. now rewrite E, IH.
Qed.

Lemma lazy_dot_then_length (p s g : str) :
  lazy_dot_then p s = Some g -> (length g + length p <= length s)%nat.
Proof.
  revert g; induction s as [|c s IH]; intros g; cbn [lazy_dot_then].
  - destruct (starts_with p []) eqn:E; [|discriminate].
    intros [= <-]. destruct (starts_with_inv _ _ E) as [r Hr].
    rewrite Hr at 2. rewrite length_app. cbn. lia.
  - destruct (starts_with p (c :: s)) eqn:E.
    + intros [= <-]. destruct (starts_with_inv _ _ E) as [r Hr].
      rewrite Hr. rewrite length_app. cbn. lia.
    + destruct (isLineTerminator c); [discriminate|].
      destruct (lazy_dot_then p s) as [g'|]; [|discriminate].
      intros [= <-]. specialize (IH g' eq_refl). cbn [length]. lia.
Qed.

Lemma lazy_dot_then_none (p s : str) :
  occurs p s = false -> lazy_dot_then p s = None.
Proof.
  induction s as [|c s IH]; intros H.
  - cbn in *. now rewrite orb_false_r in H; rewrite H.
  - apply occurs_cons in H as [H1 H2].
    cbn [lazy_dot_then]. rewrite H1, (IH H2).
    now destruct (isLineTerminator c).
Qed.

Lemma skipn_line (k : nat) (s : str) (t : N) (rest : str) :
  (k <= length s)%nat -> skipn k (s ++ t :: rest) = skipn k s ++ t :: rest.
Proof.
  intros H. rewrite skipn_app.
  replace (k - length s)%nat with 0%nat by lia. reflexivity.
Qed.

Lemma lines_head (s : str) : exists ls, lines s = greedy_dot s :: ls.
Proof.
  induction s as [|c s [ls IH]]; cbn [lines greedy_dot].
  - now exists [].
  - destruct (isLineTerminator c); [now eexists|].
    rewrite IH. now eexists.
Qed.

Lemma lines_tail (c : N) (s : str) :
  tl (lines (c :: s)) = if isLineTerminator c then lines s else tl (lines s).
Proof.
  cbn [lines]. destruct (isLineTerminator c); [reflexivity|].
  destruct (lines_head s) as [ls ->]. reflexivity.
Qed.

(** ** The scan *)

Section Scan.

Variables (re : matcher) (f : replacer) (original : str).

(** A replacer that gives every match back leaves the subject as it is. *)
Lemma replace_from_keep :
  (forall bol s n g off,
      re bol s = Some (S n, g) -> f (firstn (S n) s) g off original = firstn (S n) s) ->
  forall s bol off skip,
    replace_from re f original bol off skip s = skipn skip s.
Proof.
  intros Hf s; induction s as [|c s IH]; intros bol off skip.
  - now destruct skip.
  - destruct skip as [|k]; cbn [replace_from].
    + destruct (re bol (c :: s)) as [[[|n] g]|] eqn:E.
      * now rewrite IH.
      * rewrite (Hf _ _ _ _ off E), IH.
        cbn [firstn app]. now rewrite firstn_skipn.
      * now rewrite IH.
    + apply IH.
Qed.

Lemma replace_from_never :
  forall s bol off,
    never_matches re bol s = true ->
    replace_from re f original bol off 0 s = s.
Proof.
  induction s as [|c s IH]; intros bol off H; [reflexivity|].
  cbn [replace_from never_matches] in *.
  destruct (re bol (c :: s)); [discriminate|].
  now rewrite IH.
Qed.

(** Passing over the rest of a match. *)
Lemma replace_from_skip :
  forall m rest bol off,
    replace_from re f original bol off (length m) (m ++ rest)
    = replace_from re f original (bol_after bol m) (off + length m) 0 rest.
Proof.
  induction m as [|a m IH]; intros rest bol off.
  - cbn [length app bol_after fold_left]. rewrite Nat.add_0_r.
    destruct rest; reflexivity.
  - cbn [length app replace_from]. rewrite IH.
    cbn [bol_after fold_left]. f_equal. lia.
Qed.

(** A match at the head of the subject. *)
Lemma replace_from_match :
  forall a m rest bol off g,
    re bol (a :: m ++ rest) = Some (S (length m), g) ->
    replace_from re f original bol off 0 (a :: m ++ rest)
    = f (a :: m) g off original
        ++ replace_from re f original (bol_after bol (a :: m))
             (off + S (length m)) 0 rest.
Proof.
  intros a m rest bol off g E.
  cbn [replace_from]. rewrite E. rewrite replace_from_skip.
  cbn [firstn]. rewrite firstn_app, firstn_all, Nat.sub_diag.
  cbn [firstn]. rewrite app_nil_r.
  unfold bol_after. cbn [fold_left].
  replace (S off + length m)%nat with (off + S (length m))%nat by lia.
  reflexivity.
Qed.

(** No match at the positions of a prefix. *)
Lemma replace_from_copy :
  forall pre rest bol off,
    (forall p1 p2, pre = p1 ++ p2 -> p2 <> [] ->
                   re (bol_after bol p1) (p2 ++ rest) = None) ->
    replace_from re f original bol off 0 (pre ++ rest)
    = pre ++ replace_from re f original (bol_after bol pre) (off + length pre) 0 rest.
Proof.
  induction pre as [|a pre IH]; intros rest bol off H.
  - cbn [app length bol_after fold_left]. now rewrite Nat.add_0_r.
  - assert (E : re bol (a :: pre ++ rest) = None)
      by (apply (H [] (a :: pre) eq_refl); discriminate).
    cbn [app replace_from]. rewrite E, IH.
    + unfold bol_after. cbn [fold_left length].
      replace (S off + length pre)%nat with (off + S (length pre))%nat by lia.
      reflexivity.
    + intros p1 p2 -> Hp2. apply (H (a :: p1) p2 eq_refl Hp2).
Qed.

Lemma replace_from_line :
  line_local re ->
  forall s t rest bol off k,
    isLineTerminator t = true -> (k <= length s)%nat ->
    replace_from re f original bol off k (s ++ t :: rest)
    = replace_from re f original bol off k s
        ++ t :: replace_from re f original true (off + S (length s)) 0 rest.
Proof.
  intros [Hloc Hlen]. induction s as [|c s IH]; intros t rest bol off k Ht Hk.
  - cbn [length] in Hk. assert (k = 0)%nat as -> by lia.
    pose proof (Hloc bol [] t rest Ht) as E0. cbn [app] in E0.
    cbn [app replace_from length]. rewrite E0, Ht.
    replace (off + 1)%nat with (S off) by lia.
    destruct (re bol []) as [[[|n] g]|] eqn:E; [reflexivity| |reflexivity].
    apply Hlen in E. cbn in E. lia.
  - cbn [length] in Hk. cbn [app replace_from].
    replace (off + S (length (c :: s)))%nat with (S off + S (length s))%nat
      by (cbn [length]; lia).
    destruct k as [|k].
    + change (c :: s ++ t :: rest) with ((c :: s) ++ t :: rest).
      rewrite (Hloc bol (c :: s) t rest Ht).
      destruct (re bol (c :: s)) as [[[|n] g]|] eqn:E.
      * rewrite IH by (assumption || lia). reflexivity.
      * apply Hlen in E. cbn [length] in E.
        rewrite IH by (assumption || lia).
        rewrite firstn_app.
        replace (S n - length (c :: s))%nat with 0%nat by (cbn [length]; lia).
        cbn [firstn]. rewrite app_nil_r, <- app_assoc. reflexivity.
      * rewrite IH by (assumption || lia). reflexivity.
    + apply IH; [assumption | lia].
Qed.

End Scan.

Lemma replace_never (re : matcher) (f : replacer) (s : str) :
  never_matches re true s = true -> replace re f s = s.
Proof. apply replace_from_never. Qed.

(** When the pattern has no caret and the replacement is a template, the
    scan depends on the subject only. *)
Lemma replace_from_indep (re : matcher) (f : replacer) :
  (forall b1 b2 s, re b1 s = re b2 s) ->
  (forall m g o1 o2 s1 s2, f m g o1 s1 = f m g o2 s2) ->
  forall s or1 or2 b1 b2 o1 o2 k,
    replace_from re f or1 b1 o1 k s = replace_from re f or2 b2 o2 k s.
Proof.
  intros Hre Hf. induction s as [|c s IH]; intros; [reflexivity|].
  cbn [replace_from]. destruct k as [|k].
  - rewrite (Hre b1 b2). destruct (re b2 (c :: s)) as [[[|n] g]|].
    + f_equal. apply IH.
    + rewrite (Hf _ _ o1 o2 or1 or2). f_equal. apply IH.
    + f_equal. apply IH.
  - apply IH.
Qed.

Lemma replace_from_template (re : matcher) (pre post : str) :
  forall s or1 or2 bol o1 o2 k,
    replace_from re (template pre post) or1 bol o1 k s
    = replace_from re (template pre post) or2 bol o2 k s.
Proof.
  induction s as [|c s IH]; intros; [reflexivity|].
  cbn [replace_from]. destruct k as [|k].
  - destruct (re bol (c :: s)) as [[[|n] g]|].
    + f_equal. apply IH.
    + unfold template at 1 3. f_equal. apply IH.
    + f_equal. apply IH.
  - apply IH.
Qed.

(** A pass with a pattern that stays on its line and a template for
    replacement rewrites the two sides of a line terminator separately. *)
Lemma replace_line (re : matcher) (pre post : str) :
  line_local re ->
  forall s t rest,
    isLineTerminator t = true ->
    replace re (template pre post) (s ++ t :: rest)
    = replace re (template pre post) s
        ++ t :: replace re (template pre post) rest.
Proof.
  intros Hre s t rest Ht. unfold replace.
  rewrite (replace_from_line _ _ _ Hre) by (assumption || lia).
  f_equal; [|f_equal]; apply replace_from_template.
Qed.

(** ** The last pass *)

Lemma digits_item (r : str) : digits (u "<li>" ++ r) = [].
Proof. reflexivity. Qed.

Lemma wrap_callback_item (r g : str) (offset : nat) (original : str) :
  wrap_callback (u "<li>" ++ r) g offset original = u "<li>" ++ r.
Proof.
  unfold wrap_callback.
  destruct (_ || _)%bool; [reflexivity|].
  reflexivity.
Qed.

Lemma re_item_match (bol : bool) (s : str) (n : nat) (g : str) :
  re_item bol s = Some (n, g) ->
  exists r, firstn n s = u "<li>" ++ r.
Proof.
  unfold re_item. destruct (starts_with (u "<li>") s) eqn:E; [|discriminate].
  destruct (lazy_dot_then _ _) as [c|]; [|discriminate].
  intros [= <- _].
  apply starts_with_inv, starts_with_firstn; [exact E|].
  cbn [u length map list_ascii_of_string]. simpl. lia.
Qed.

Lemma wrapPass_id (s : str) : wrapPass s = s.
Proof.
  unfold wrapPass, replace.
  rewrite replace_from_keep; [reflexivity|].
  intros bol t n g off E.
  destruct (re_item_match _ _ _ _ E) as [r ->].
  apply wrap_callback_item.
Qed.

(** C10: the last pass changes no string.  The callback gives back every
    match that lies inside a container; for the others its two prefix
    tests, for hyphen-space and for digits-period-space, fail on every
    text that begins with the item tag, so it gives those back too; the
    chain with the pass and the chain without it agree on every input. *)
Theorem C10_wrap_pass_is_identity :
  (forall s, wrapPass s = s)
  /\ (forall r, test_bullet (u "<li>" ++ r) = false
              /\ test_numbered (u "<li>" ++ r) = false)
  /\ (forall r g offset original,
        wrap_callback (u "<li>" ++ r) g offset original = u "<li>" ++ r)
  /\ (forall bol s,
        match re_item bol s with
        | Some (n, _) => starts_with (u "<li>") (firstn n s) = true
        | None => True
        end)
  /\ (forall feedback, format feedback = format_unwrapped feedback).
Proof.
  split; [exact wrapPass_id|].
  split; [intros r; split; reflexivity|].
  split; [exact wrap_callback_item|].
  split.
  - intros bol s. destruct (re_item bol s) as [[n g]|] eqn:E; [|exact I].
    destruct (re_item_match _ _ _ _ E) as [r ->].
    apply starts_with_app.
  - intros feedback. unfold format. apply wrapPass_id.
Qed.

(** ** The chain on the inputs of the test list *)

Lemma no_container (items : list str) (out : str) :
  occurs (u "<ul>") out = false -> occurs (u "<ol>") out = false ->
  ~ held_in_one_container items out.
Proof.
  intros Hul Hol (k & pre & body & post & E & _).
  pose proof (occurs_mid (open_tag k) pre (body ++ close_tag k ++ post)) as H.
  rewrite <- E in H. destruct k; cbn [open_tag] in H; congruence.
Qed.

(** Where the list stands between two bold lines the passes of lines 238
    and 239 do open and close one container around its items. *)
Example heading_list_heading :
  format (u "**T**" ++ nl ++ u "- a" ++ nl ++ u "- b" ++ nl ++ u "**U**")
  = u "<strong>T</strong><ul><li>a</li>" ++ nl
      ++ u "<li>b</li></ul><strong>U</strong>".
Proof. vm_compute. reflexivity. Qed.

(** C1: on the two bullet lines [- a] and [- b] the chain yields the two
    item elements, in order and one per line, and no container tag: no
    pattern of lines 238 to 240 occurs, and the callback of the last pass
    gives each item back.  The single unordered container is missing. *)
Theorem C1_bullets_get_no_container :
  format (u "- a" ++ nl ++ u "- b") = item (u "a") ++ nl ++ item (u "b")
  /\ ~ held_in_one_container [u "a"; u "b"] (format (u "- a" ++ nl ++ u "- b")).
Proof.
  split; [vm_compute; reflexivity|].
  apply no_container; vm_compute; reflexivity.
Qed.

(** C2: on a bullet line followed by a bold line, an input without any
    tag, the pass of line 239 writes a closing unordered-list tag although
    no container was opened: the output fails the nesting check. *)
Theorem C2_stray_close_before_bold :
  format (u "- a" ++ nl ++ u "**b**") = u "<li>a</li></ul><strong>b</strong>"
  /\ occurs (u "<") (u "- a" ++ nl ++ u "**b**") = false
  /\ no_stray_close [] (format (u "- a" ++ nl ++ u "**b**")) = false.
Proof. repeat split; vm_compute; reflexivity. Qed.

(** C3: on two bullet lines with one empty line between them the pass of
    line 240 writes the replacement text of line 239: a closing
    unordered-list tag although no container is open, and a bold opening
    tag where the opening tag of the second item was.  The output has no
    container that holds the two item elements, no second item element,
    and it fails the nesting check. *)
Theorem C3_blank_line_breaks_items :
  format (u "- a" ++ nl ++ nl ++ u "- b") = u "<li>a</li></ul><strong>b</li>"
  /\ occurs (item (u "b")) (format (u "- a" ++ nl ++ nl ++ u "- b")) = false
  /\ no_stray_close [] (format (u "- a" ++ nl ++ nl ++ u "- b")) = false
  /\ ~ held_in_one_container [u "a"; u "b"]
        (format (u "- a" ++ nl ++ nl ++ u "- b")).
Proof.
  split; [vm_compute; reflexivity|]. split; [vm_compute; reflexivity|].
  split; [vm_compute; reflexivity|].
  apply no_container; vm_compute; reflexivity.
Qed.

(** C4: on the two numbered lines [1. a] and [2. b] the chain yields the
    two item elements, in order and one per line, and no container tag.
    The single ordered container is missing. *)
Theorem C4_numbered_get_no_container :
  format (u "1. a" ++ nl ++ u "2. b") = item (u "a") ++ nl ++ item (u "b")
  /\ ~ held_in_one_container [u "a"; u "b"] (format (u "1. a" ++ nl ++ u "2. b")).
Proof.
  split; [vm_compute; reflexivity|].
  apply no_container; vm_compute; reflexivity.
Qed.

(** C5: on a bullet line followed by a plain line the chain yields the item
    element, the line feed and the plain line as it is; no closing
    container tag is written before the plain line. *)
Theorem C5_no_close_before_plain :
  format (u "- a" ++ nl ++ u "plain") = item (u "a") ++ nl ++ u "plain"
  /\ occurs (close_tag Unordered) (format (u "- a" ++ nl ++ u "plain")) = false
  /\ occurs (close_tag Ordered) (format (u "- a" ++ nl ++ u "plain")) = false.
Proof. repeat split; vm_compute; reflexivity. Qed.

Lemma replace_nonempty (re : matcher) (f : replacer) (s : str) :
  (forall bol t n g off o, re bol t = Some (S n, g) ->
                           f (firstn (S n) t) g off o <> []) ->
  replace re f s = [] -> s = [].
Proof.
  intros Hf H. destruct s as [|c s]; [reflexivity|].
  unfold replace in H. cbn [replace_from] in H.
  destruct (re true (c :: s)) as [[[|n] g]|] eqn:E; try discriminate H.
  apply app_eq_nil in H as [H _]. exfalso. exact (Hf _ _ _ _ _ _ E H).
Qed.

Lemma template_nonempty (pre post m g : str) (off : nat) (o : str) :
  pre ++ post <> [] -> template pre post m g off o <> [].
Proof.
  unfold template. intros H E. apply H.
  apply app_eq_nil in E as [-> E]. now apply app_eq_nil in E as [_ ->].
Qed.

(** The chain gives the empty string for the empty string only. *)
Lemma format_nil_iff (s : str) : format s = [] <-> s = [].
Proof.
  split; [|now intros ->].
  unfold format. rewrite wrapPass_id.
  unfold boundaryPass, classifyPass, blankLinePass, closeBeforeBoldPass,
    openAfterBoldPass, numberedPass, bulletPass, boldPass.
  intros H.
  repeat (apply replace_nonempty in H;
          [| intros; (apply template_nonempty; discriminate) || discriminate]).
  exact H.
Qed.



(** ** Subjects without a match *)

Lemma never_bold (s : str) (bol : bool) :
  occurs (u "**") s = false -> never_matches re_bold bol s = true.
Proof.
  revert bol; induction s as [|c s IH]; intros bol H; [reflexivity|].
  apply occurs_cons in H as [H1 H2].
  cbn [never_matches]. unfold re_bold at 1. rewrite H1. now apply IH.
Qed.

Lemma never_literal (g rest s : str) (bol : bool) :
  occurs (g ++ rest) s = false -> never_matches (re_literal g rest) bol s = true.
Proof.
  revert bol; induction s as [|c s IH]; intros bol H; [reflexivity|].
  apply occurs_cons in H as [H1 H2].
  cbn [never_matches]. unfold re_literal at 1. rewrite H1. now apply IH.
Qed.

Lemma numbered_line_greedy_dot (s : str) :
  numbered_line (greedy_dot s) = numbered_line s.
Proof.
  unfold numbered_line.
  assert (H : length (digits (greedy_dot s)) = length (digits s)
              /\ starts_with (u ". ") (skipn (length (digits s)) (greedy_dot s))
                 = starts_with (u ". ") (skipn (length (digits s)) s)).
  { induction s as [|c s [IH1 IH2]]; [now split|].
    cbn [greedy_dot digits].
    destruct (isLineTerminator c) eqn:Ec.
    - rewrite (terminator_not_digit _ Ec). split; [reflexivity|].
      cbn [length skipn].
      rewrite <- (starts_with_greedy_dot (u ". ") (c :: s)) by reflexivity.
      cbn [greedy_dot]. now rewrite Ec.
    - cbn [digits]. destruct (isDigit c) eqn:Ed.
      + cbn [length skipn]. now rewrite IH1.
      + split; [reflexivity|]. cbn [length skipn].
        rewrite <- (starts_with_greedy_dot (u ". ") (c :: s)) by reflexivity.
        cbn [greedy_dot]. now rewrite Ec. }
  destruct H as [-> ->]. reflexivity.
Qed.

Lemma bullet_line_greedy_dot (s : str) :
  bullet_line (greedy_dot s) = bullet_line s.
Proof. apply starts_with_greedy_dot. reflexivity. Qed.

Lemma re_bullet_none (bol : bool) (s : str) :
  (bol = true -> bullet_line s = false) -> re_bullet bol s = None.
Proof.
  unfold re_bullet, bullet_line. intros H.
  destruct bol; [now rewrite H|reflexivity].
Qed.

Lemma re_numbered_none (bol : bool) (s : str) :
  (bol = true -> numbered_line s = false) -> re_numbered bol s = None.
Proof.
  unfold re_numbered, numbered_line. intros H.
  destruct bol; [|reflexivity].
  cbn [andb]. now rewrite H.
Qed.

(** A pattern anchored at line starts matches nowhere in a subject none of
    whose lines it accepts. *)
Lemma never_anchored (re : matcher) (accepts : str -> bool) :
  (forall bol s, (bol = true -> accepts s = false) -> re bol s = None) ->
  (forall s, accepts (greedy_dot s) = accepts s) ->
  forall s bol,
    (bol = true -> accepts (hd [] (lines s)) = false) ->
    forallb (fun l => negb (accepts l)) (tl (lines s)) = true ->
    never_matches re bol s = true.
Proof.
  intros Hre Hgd. induction s as [|c s IH]; intros bol Hhd Htl; [reflexivity|].
  cbn [never_matches].
  rewrite Hre.
  2:{ intros Hb. specialize (Hhd Hb).
      destruct (lines_head (c :: s)) as [ls E]. rewrite E in Hhd.
      cbn [hd] in Hhd. now rewrite Hgd in Hhd. }
  rewrite lines_tail in Htl.
  apply IH.
  - intros Hc. rewrite Hc in Htl.
    destruct (lines_head s) as [ls E]. rewrite E in *.
    cbn [forallb hd] in *. apply andb_true_iff in Htl as [Htl _].
    now apply negb_true_iff in Htl.
  - destruct (isLineTerminator c); [|exact Htl].
    destruct (lines_head s) as [ls E]. rewrite E in *.
    cbn [forallb tl] in *. now apply andb_true_iff in Htl as [_ Htl].
Qed.

Lemma never_anchored_lines (re : matcher) (accepts : str -> bool) :
  (forall bol s, (bol = true -> accepts s = false) -> re bol s = None) ->
  (forall s, accepts (greedy_dot s) = accepts s) ->
  forall s,
    forallb (fun l => negb (accepts l)) (lines s) = true ->
    never_matches re true s = true.
Proof.
  intros Hre Hgd s H. destruct (lines_head s) as [ls E].
  apply (never_anchored re accepts Hre Hgd); rewrite E in *;
    cbn [forallb hd tl] in *; apply andb_true_iff in H as [H1 H2].
  - intros _. now apply negb_true_iff in H1.
  - exact H2.
Qed.

Lemma forallb_split_markers (ls : list str) :
  forallb (fun l => negb (bullet_line l) && negb (numbered_line l)) ls = true ->
  forallb (fun l => negb (bullet_line l)) ls = true
  /\ forallb (fun l => negb (numbered_line l)) ls = true.
Proof.
  induction ls as [|l ls IH]; cbn [forallb]; [now split|].
  intros H. apply andb_true_iff in H as [Hl Hls].
  apply andb_true_iff in Hl as [Hb Hn].
  destruct (IH Hls) as [IHb IHn].
  now rewrite Hb, Hn, IHb, IHn.
Qed.

Lemma classifyPass_marker_free (s : str) :
  marker_free s = true -> classifyPass s = s.
Proof.
  unfold marker_free, classifyPass. intros H.
  apply andb_true_iff in H as [Hb Hl].
  apply negb_true_iff in Hb.
  apply forallb_split_markers in Hl as [Hbul Hnum].
  unfold boldPass. rewrite (replace_never _ _ _ (never_bold _ _ Hb)).
  unfold bulletPass. rewrite replace_never.
  2:{ apply (never_anchored_lines re_bullet bullet_line);
        [exact re_bullet_none | exact bullet_line_greedy_dot | exact Hbul]. }
  unfold numberedPass. apply replace_never.
  apply (never_anchored_lines re_numbered numbered_line);
    [exact re_numbered_none | exact numbered_line_greedy_dot | exact Hnum].
Qed.

Lemma boundaryPass_boundary_free (s : str) :
  boundary_free s = true -> boundaryPass s = s.
Proof.
  unfold boundary_free, boundaryPass. intros H.
  apply andb_true_iff in H as [H H6]. apply andb_true_iff in H as [H4 H5].
  apply negb_true_iff in H4, H5, H6.
  unfold openAfterBoldPass. rewrite (replace_never _ _ _ (never_literal _ _ _ _ H4)).
  unfold closeBeforeBoldPass. rewrite (replace_never _ _ _ (never_literal _ _ _ _ H5)).
  unfold blankLinePass. apply (replace_never _ _ _ (never_literal _ _ _ _ H6)).
Qed.

(** C6, as the spec words it, fails: the text made of a closing item tag,
    a line feed and a bold opening tag has no two adjacent stars and no
    line that begins as an item, and the pass of line 239 rewrites it. *)
Lemma C6_counterexample :
  marker_free (u "</li>" ++ nl ++ u "<strong>") = true
  /\ format (u "</li>" ++ nl ++ u "<strong>") <> u "</li>" ++ nl ++ u "<strong>".
Proof. split; [reflexivity | vm_compute; discriminate]. Qed.

(** C6, amended: a string with no two adjacent stars, with no line that
    begins with hyphen-space or with digits-period-space, and without the
    three texts the boundary passes look for, is returned as it is.  Lines
    are delimited by the line terminators, as the caret of the patterns
    sees them. *)
Theorem C6_identity_without_markers (s : str) :
  marker_free s = true ->
  boundary_free s = true ->
  format s = s.
Proof.
  intros Hm Hb. unfold format.
  rewrite (classifyPass_marker_free _ Hm), (boundaryPass_boundary_free _ Hb).
  apply wrapPass_id.
Qed.

(** The law at a two-line text with a hyphen, a star and an angle bracket
    inside its lines. *)
Lemma C6_identity_without_markers_witness :
  marker_free (u "Good pace - keep it." ++ nl ++ u "2 * 3 < 7") = true
  /\ boundary_free (u "Good pace - keep it." ++ nl ++ u "2 * 3 < 7") = true
  /\ format (u "Good pace - keep it." ++ nl ++ u "2 * 3 < 7")
     = u "Good pace - keep it." ++ nl ++ u "2 * 3 < 7".
Proof.
  split; [reflexivity|]. split; [reflexivity|].
  apply C6_identity_without_markers; reflexivity.
Defined.

(** ** Bold spans *)

Lemma stars_split (x y : str) : x ++ u "**" ++ y = (x ++ u "*") ++ u "*" ++ y.
Proof. now rewrite <- app_assoc. Qed.

(** No marker begins inside a non-empty [x], nor on its last code unit
    together with the star that follows. *)
Lemma no_marker_at (x y : str) :
  x <> [] -> occurs (u "**") (x ++ u "*") = false ->
  starts_with (u "**") (x ++ u "**" ++ y) = false.
Proof.
  intros Hx H. rewrite stars_split, starts_with_app_long.
  - destruct x as [|a x]; [congruence|]. now apply occurs_cons in H.
  - destruct x; [congruence|]. rewrite length_app. cbn. lia.
Qed.

Lemma lazy_dot_then_stars (c post : str) :
  no_terminator c = true ->
  occurs (u "**") (c ++ u "*") = false ->
  lazy_dot_then (u "**") (c ++ u "**" ++ post) = Some c.
Proof.
  induction c as [|a c IH]; intros Ht Hc; [reflexivity|].
  cbn [no_terminator forallb] in Ht. apply andb_true_iff in Ht as [Ha Ht].
  apply negb_true_iff in Ha.
  assert (E : starts_with (u "**") ((a :: c) ++ u "**" ++ post) = false)
    by (apply no_marker_at; [discriminate | exact Hc]).
  cbn [app] in E, Hc |- *. apply occurs_cons in Hc as [_ Hc].
  cbn [lazy_dot_then]. rewrite E, Ha, (IH Ht Hc). reflexivity.
Qed.

Lemma re_bold_span (bol : bool) (c post : str) :
  no_terminator c = true ->
  occurs (u "**") (c ++ u "*") = false ->
  re_bold bol (u "**" ++ c ++ u "**" ++ post)
  = Some (S (length (u "*" ++ c ++ u "**")), c).
Proof.
  intros Ht Hc. unfold re_bold.
  change (skipn 2 (u "**" ++ c ++ u "**" ++ post)) with (c ++ u "**" ++ post).
  rewrite lazy_dot_then_stars by assumption.
  cbn. rewrite length_app. reflexivity.
Qed.

Lemma boldPass_from (s original : str) (bol : bool) (off : nat) :
  replace_from re_bold (template (u "<strong>") (u "</strong>")) original bol off 0 s
  = boldPass s.
Proof. apply replace_from_indep; reflexivity. Qed.

Lemma boldPass_prefix (pre rest : str) :
  occurs (u "**") (pre ++ u "*") = false ->
  boldPass (pre ++ u "**" ++ rest) = pre ++ boldPass (u "**" ++ rest).
Proof.
  intros Hpre. unfold boldPass at 1, replace.
  rewrite replace_from_copy.
  - now rewrite boldPass_from.
  - intros p1 p2 -> Hp2. unfold re_bold.
    rewrite no_marker_at; [reflexivity | exact Hp2 |].
    rewrite <- app_assoc in Hpre. now apply occurs_suffix in Hpre.
Qed.

(** A marker, content without a marker and without a line terminator, a
    marker: the span becomes a bold element and the scan goes on behind it. *)
Lemma boldPass_span (pre c post : str) :
  occurs (u "**") (pre ++ u "*") = false ->
  no_terminator c = true ->
  occurs (u "**") (c ++ u "*") = false ->
  boldPass (pre ++ u "**" ++ c ++ u "**" ++ post)
  = pre ++ u "<strong>" ++ c ++ u "</strong>" ++ boldPass post.
Proof.
  intros Hpre Ht Hc. rewrite boldPass_prefix by exact Hpre. f_equal.
  unfold boldPass at 1, replace.
  replace (u "**" ++ c ++ u "**" ++ post)
    with (42 :: (u "*" ++ c ++ u "**") ++ post)
    by (cbn; now rewrite <- app_assoc).
  rewrite (replace_from_match _ _ _ _ _ _ _ _ c).
  - rewrite boldPass_from. unfold template. now rewrite <- !app_assoc.
  - replace (42 :: (u "*" ++ c ++ u "**") ++ post)
      with (u "**" ++ c ++ u "**" ++ post)
      by (cbn; now rewrite <- app_assoc).
    now apply re_bold_span.
Qed.

(** A marker with no other marker in the subject stays as it is. *)
Lemma boldPass_unpaired (pre post : str) :
  occurs (u "**") (pre ++ u "*") = false ->
  occurs (u "**") (u "*" ++ post) = false ->
  boldPass (pre ++ u "**" ++ post) = pre ++ u "**" ++ post.
Proof.
  intros Hpre Hpost. rewrite boldPass_prefix by exact Hpre. f_equal.
  unfold boldPass, replace.
  change (u "**" ++ post) with (42 :: u "*" ++ post).
  cbn [replace_from]. unfold re_bold at 1.
  change (skipn 2 (42 :: u "*" ++ post)) with post.
  rewrite lazy_dot_then_none by now apply occurs_cons in Hpost.
  rewrite replace_from_never; [|now apply never_bold].
  now destruct (starts_with _ _).
Qed.

(** When what the bold pass returns has no item line and none of the
    boundary texts, the later passes leave it alone. *)
Lemma format_bold_only (s : str) :
  forallb (fun l => negb (bullet_line l) && negb (numbered_line l))
          (lines (boldPass s)) = true ->
  boundary_free (boldPass s) = true ->
  format s = boldPass s.
Proof.
  intros Hl Hb. unfold format, classifyPass.
  apply forallb_split_markers in Hl as [Hbul Hnum].
  unfold bulletPass. rewrite replace_never.
  2:{ apply (never_anchored_lines re_bullet bullet_line);
        [exact re_bullet_none | exact bullet_line_greedy_dot | exact Hbul]. }
  unfold numberedPass. rewrite replace_never.
  2:{ apply (never_anchored_lines re_numbered numbered_line);
        [exact re_numbered_none | exact numbered_line_greedy_dot | exact Hnum]. }
  rewrite (boundaryPass_boundary_free _ Hb). apply wrapPass_id.
Qed.


(** ** Patterns that stay on one line *)

Lemma re_bold_line_local : line_local re_bold.
Proof.
  split.
  - intros bol s t rest Ht. unfold re_bold.
    rewrite starts_with_line by (reflexivity || assumption).
    destruct (starts_with (u "**") s) eqn:E; [|reflexivity].
    apply starts_with_length in E.
    rewrite skipn_line by exact E.
    now rewrite lazy_dot_then_line by (reflexivity || assumption).
  - intros bol s n g. unfold re_bold.
    destruct (starts_with (u "**") s) eqn:E; [|discriminate].
    destruct (lazy_dot_then _ _) as [g'|] eqn:El; [|discriminate].
    intros [= <- <-]. apply lazy_dot_then_length in El.
    apply starts_with_length in E.
    rewrite length_skipn in El. cbn in El, E. lia.
Qed.

Lemma re_bullet_line_local : line_local re_bullet.
Proof.
  split.
  - intros bol s t rest Ht. unfold re_bullet.
    rewrite starts_with_line by (reflexivity || assumption).
    destruct (bol && starts_with (u "- ") s) eqn:E; [|reflexivity].
    apply andb_true_iff in E as [_ E]. apply starts_with_length in E.
    rewrite skipn_line by exact E.
    now rewrite greedy_dot_line.
  - intros bol s n g. unfold re_bullet.
    destruct (bol && starts_with (u "- ") s) eqn:E; [|discriminate].
    apply andb_true_iff in E as [_ E]. apply starts_with_length in E.
    intros [= <- <-].
    pose proof (greedy_dot_length (skipn 2 s)) as Hg.
    rewrite length_skipn in Hg. cbn [skipn] in Hg. cbn in E. lia.
Qed.

Lemma re_numbered_line_local : line_local re_numbered.
Proof.
  split.
  - intros bol s t rest Ht. unfold re_numbered.
    rewrite digits_line by assumption.
    pose proof (digits_length s) as Hd.
    rewrite skipn_line by exact Hd.
    rewrite starts_with_line by (reflexivity || assumption).
    destruct (bol && _ && starts_with (u ". ") _) eqn:E; [|reflexivity].
    apply andb_true_iff in E as [_ E]. apply starts_with_length in E.
    rewrite skipn_line by exact E.
    now rewrite greedy_dot_line.
  - intros bol s n g. unfold re_numbered.
    destruct (bol && _ && starts_with (u ". ") _) eqn:E; [|discriminate].
    apply andb_true_iff in E as [_ E]. apply starts_with_length in E.
    intros [= <- <-].
    pose proof (greedy_dot_length (skipn 2 (skipn (length (digits s)) s))) as Hg.
    pose proof (digits_length s) as Hd.
    rewrite !length_skipn in Hg. rewrite length_skipn in E.
    cbn [skipn] in Hg. cbn in E. lia.
Qed.

Lemma classifyPass_line (s : str) (t : N) (rest : str) :
  isLineTerminator t = true ->
  classifyPass (s ++ t :: rest) = classifyPass s ++ t :: classifyPass rest.
Proof.
  intros Ht. unfold classifyPass, boldPass, bulletPass, numberedPass.
  rewrite (replace_line _ _ _ re_bold_line_local) by exact Ht.
  rewrite (replace_line _ _ _ re_bullet_line_local) by exact Ht.
  now rewrite (replace_line _ _ _ re_numbered_line_local) by exact Ht.
Qed.

Lemma classifyPass_join (ls : list str) :
  classifyPass (join_lines ls) = join_lines (map classifyPass ls).
Proof.
  induction ls as [|l ls IH]; [reflexivity|].
  destruct ls as [|l' ls]; [reflexivity|].
  change (join_lines (l :: l' :: ls)) with (l ++ 10 :: join_lines (l' :: ls)).
  rewrite classifyPass_line by reflexivity. rewrite IH. reflexivity.
Qed.

(** C9, as the spec words it, fails.  The inputs [x], empty line, [- b] and
    [- a], empty line, [- b] agree on their last two lines.  After the
    first beginning the last line adds a line feed and the item element;
    after the second the pass of line 240 takes both line feeds and the
    item's opening tag away, so the line before the last two decides what
    the last line becomes.  No fragment function of two lines fits both. *)
Lemma C9_counterexample :
  format (u "x" ++ nl ++ nl ++ u "- b")
    = format (u "x" ++ nl) ++ nl ++ u "<li>b</li>"
  /\ format (u "- a" ++ nl ++ nl ++ u "- b") = u "<li>a</li></ul><strong>b</li>"
  /\ occurs (item (u "b")) (format (u "x" ++ nl ++ nl ++ u "- b")) = true
  /\ occurs (item (u "b")) (format (u "- a" ++ nl ++ nl ++ u "- b")) = false
  /\ ~ one_line_lookback format.
Proof.
  split; [vm_compute; reflexivity|]. split; [vm_compute; reflexivity|].
  split; [vm_compute; reflexivity|]. split; [vm_compute; reflexivity|].
  intros [frag H].
  pose proof (H (u "x") [] (u "- b") eq_refl eq_refl) as Hx.
  pose proof (H (u "- a") [] (u "- b") eq_refl eq_refl) as Ha.
  vm_compute in Hx, Ha.
  injection Hx as Hx. rewrite <- Hx in Ha. discriminate Ha.
Qed.

(** C9, amended: what a line becomes, its bold elements and its item
    element, depends on that line alone.  The three classifying passes
    rewrite the two sides of a line feed separately, and on lines joined
    by line feeds the chain is the boundary rewriting of lines 238 to 240
    applied to the lines classified one by one. *)
Theorem C9_classification_per_line :
  (forall s rest,
      classifyPass (s ++ nl ++ rest) = classifyPass s ++ nl ++ classifyPass rest)
  /\ (forall ls,
      format (join_lines ls) = boundaryPass (join_lines (map classifyPass ls))).
Proof.
  split.
  - intros s rest. apply classifyPass_line. reflexivity.
  - intros ls. unfold format. rewrite wrapPass_id. now rewrite classifyPass_join.
Qed.

(** ** One line through the classifying passes *)

Lemma boldPass_cons (a : N) (s : str) :
  (a =? 42) = false -> boldPass (a :: s) = a :: boldPass s.
Proof.
  intros Ha. unfold boldPass at 1, replace. cbn [replace_from].
  unfold re_bold at 1. cbn [u map list_ascii_of_string starts_with].
  change (N_of_ascii "*") with 42. rewrite N.eqb_sym, Ha. cbn [andb].
  now rewrite boldPass_from.
Qed.

(** Text without a star goes through the bold pass as it is. *)
Lemma boldPass_copy (pre rest : str) :
  forallb (fun c => negb (c =? 42)) pre = true ->
  boldPass (pre ++ rest) = pre ++ boldPass rest.
Proof.
  induction pre as [|a pre IH]; intros H; [reflexivity|].
  cbn [forallb] in H. apply andb_true_iff in H as [Ha H].
  apply negb_true_iff in Ha.
  cbn [app]. rewrite boldPass_cons by exact Ha. now rewrite IH.
Qed.

(** A star at the head stays, or a bold element begins there. *)
Lemma boldPass_star (s : str) :
  exists r, boldPass (42 :: s) = 42 :: r \/ boldPass (42 :: s) = 60 :: r.
Proof.
  unfold boldPass, replace. cbn [replace_from].
  destruct (re_bold true (42 :: s)) as [[[|n] g]|] eqn:E.
  - eexists. left. reflexivity.
  - eexists. right. unfold template. reflexivity.
  - eexists. left. reflexivity.
Qed.

(** The bold pass puts no code unit [d] other than [<] at the head of a
    text that does not begin with [d]. *)
Lemma boldPass_head (d : N) (s : str) :
  (d =? 60) = false ->
  starts_with [d] s = false -> starts_with [d] (boldPass s) = false.
Proof.
  intros Hd H. destruct s as [|b s]; [reflexivity|].
  cbn [starts_with] in H. rewrite andb_true_r in H.
  destruct (N.eqb_spec b 42) as [->|Hb].
  - destruct (boldPass_star s) as [r [-> | ->]]; cbn [starts_with];
      rewrite andb_true_r; assumption.
  - rewrite boldPass_cons by now apply N.eqb_neq.
    cbn [starts_with]. now rewrite andb_true_r.
Qed.

Lemma lazy_dot_then_split (p s g : str) :
  lazy_dot_then p s = Some g ->
  no_terminator g = true /\ exists r, s = g ++ p ++ r.
Proof.
  revert g; induction s as [|c s IH]; intros g; cbn [lazy_dot_then].
  - destruct (starts_with p []) eqn:E; [|discriminate].
    intros [= <-]. split; [reflexivity|]. now apply starts_with_inv.
  - destruct (starts_with p (c :: s)) eqn:E.
    + intros [= <-]. split; [reflexivity|]. now apply starts_with_inv.
    + destruct (isLineTerminator c) eqn:Ec; [discriminate|].
      destruct (lazy_dot_then p s) as [g'|]; [|discriminate].
      intros [= <-]. destruct (IH g' eq_refl) as [Hg [r ->]].
      split; [|now exists r].
      cbn [no_terminator forallb]. now rewrite Ec.
Qed.

Lemma greedy_dot_split (s : str) :
  no_terminator (greedy_dot s) = true
  /\ exists r, s = greedy_dot s ++ r
               /\ match r with [] => True | t :: _ => isLineTerminator t = true end.
Proof.
  induction s as [|c s [IH1 [r [IH2 IH3]]]]; cbn [greedy_dot].
  - split; [reflexivity|]. now exists [].
  - destruct (isLineTerminator c) eqn:Ec.
    + split; [reflexivity|]. now exists (c :: s).
    + split; [cbn [no_terminator forallb]; now rewrite Ec|].
      exists r. split; [cbn [app]; now f_equal | exact IH3].
Qed.

Lemma greedy_dot_whole (s : str) :
  no_terminator s = true -> greedy_dot s = s.
Proof.
  induction s as [|c s IH]; intros H; [reflexivity|].
  cbn [no_terminator forallb] in H. apply andb_true_iff in H as [Hc H].
  apply negb_true_iff in Hc. cbn [greedy_dot]. rewrite Hc. now rewrite IH.
Qed.

Lemma lines_single (s : str) : no_terminator s = true -> lines s = [s].
Proof.
  induction s as [|c s IH]; intros H; [reflexivity|].
  cbn [no_terminator forallb] in H. apply andb_true_iff in H as [Hc H].
  apply negb_true_iff in Hc. cbn [lines]. rewrite Hc, (IH H). reflexivity.
Qed.

Lemma no_terminator_app (x y : str) :
  no_terminator (x ++ y) = no_terminator x && no_terminator y.
Proof. apply forallb_app. Qed.

Section ScanKeeps.

Variables (re : matcher) (f : replacer) (original : str) (P : N -> bool).

Hypothesis replacement_keeps :
  forall bol s n g off,
    re bol s = Some (S n, g) -> forallb P s = true ->
    forallb P (f (firstn (S n) s) g off original) = true.

(** A property of code units that every replacement has is kept by the
    scan. *)
Lemma replace_from_forallb :
  forall s bol off k,
    forallb P s = true ->
    forallb P (replace_from re f original bol off k s) = true.
Proof.
  induction s as [|c s IH]; intros bol off k H; [reflexivity|].
  pose proof H as H'. cbn [forallb] in H'.
  apply andb_true_iff in H' as [Hc Hs].
  cbn [replace_from]. destruct k as [|k]; [|now apply IH].
  destruct (re bol (c :: s)) as [[[|n] g]|] eqn:E.
  - cbn [forallb]. now rewrite Hc, IH.
  - rewrite forallb_app, (replacement_keeps _ _ _ _ off E H). now rewrite IH.
  - cbn [forallb]. now rewrite Hc, IH.
Qed.

End ScanKeeps.

Lemma boldPass_no_terminator (s : str) :
  no_terminator s = true -> no_terminator (boldPass s) = true.
Proof.
  intros H. unfold boldPass, replace, no_terminator.
  apply replace_from_forallb; [|exact H].
  intros bol t n g off E _. unfold re_bold in E.
  destruct (starts_with (u "**") t); [|discriminate].
  destruct (lazy_dot_then _ _) as [g'|] eqn:El; [|discriminate].
  injection E as _ <-. apply lazy_dot_then_split in El as [Hg _].
  unfold template. rewrite !forallb_app. fold (no_terminator g').
  now rewrite Hg.
Qed.

Lemma item_no_terminator (x : str) :
  no_terminator x = true -> no_terminator (item x) = true.
Proof.
  intros H. unfold item. rewrite !no_terminator_app, H. reflexivity.
Qed.

(** The numbered pass leaves an item element alone. *)
Lemma numberedPass_item (x : str) :
  no_terminator x = true -> numberedPass (item x) = item x.
Proof.
  intros H. unfold numberedPass. apply replace_never.
  apply (never_anchored_lines re_numbered numbered_line);
    [exact re_numbered_none | exact numbered_line_greedy_dot |].
  rewrite lines_single by now apply item_no_terminator.
  reflexivity.
Qed.

(** The bullet pass on one bullet line. *)
Lemma bulletPass_bullet (x : str) :
  no_terminator x = true -> bulletPass (u "- " ++ x) = item x.
Proof.
  intros H. unfold bulletPass, replace.
  replace (u "- " ++ x) with (45 :: (32 :: x) ++ [])
    by (rewrite app_nil_r; reflexivity).
  rewrite (replace_from_match _ _ _ _ _ _ _ _ x).
  - cbn [replace_from]. unfold template, item. now rewrite app_nil_r.
  - rewrite app_nil_r. unfold re_bullet.
    change (skipn 2 (45 :: 32 :: x)) with x.
    rewrite greedy_dot_whole by exact H. reflexivity.
Qed.

(** A bullet line: hyphen, space, content. *)
Lemma classifyPass_bullet (c : str) :
  no_terminator c = true ->
  classifyPass (u "- " ++ c) = item (boldPass c).
Proof.
  intros H. unfold classifyPass.
  rewrite boldPass_copy by reflexivity.
  rewrite bulletPass_bullet by now apply boldPass_no_terminator.
  apply numberedPass_item. now apply boldPass_no_terminator.
Qed.

Lemma digits_app_stop (ds r : str) :
  forallb isDigit ds = true ->
  (match r with [] => true | b :: _ => negb (isDigit b) end) = true ->
  digits (ds ++ r) = ds.
Proof.
  intros Hd Hr. induction ds as [|d ds IH].
  - destruct r as [|b r]; [reflexivity|].
    cbn [app digits]. apply negb_true_iff in Hr. now rewrite Hr.
  - cbn [forallb] in Hd. apply andb_true_iff in Hd as [Hd1 Hd2].
    cbn [app digits]. rewrite Hd1. now rewrite IH.
Qed.

Lemma digit_not_star (ds : str) :
  forallb isDigit ds = true -> forallb (fun c => negb (c =? 42)) ds = true.
Proof.
  induction ds as [|d ds IH]; intros H; [reflexivity|].
  cbn [forallb] in *. apply andb_true_iff in H as [Hd H].
  rewrite (IH H), andb_true_r. apply negb_true_iff, N.eqb_neq.
  unfold isDigit in Hd. apply andb_true_iff in Hd as [H1 H2].
  apply N.leb_le in H1, H2. lia.
Qed.

Lemma digits_no_terminator (ds : str) :
  forallb isDigit ds = true -> no_terminator ds = true.
Proof.
  induction ds as [|d ds IH]; intros H; [reflexivity|].
  cbn [forallb no_terminator] in *. apply andb_true_iff in H as [Hd H].
  fold (no_terminator ds). rewrite (IH H), andb_true_r.
  apply negb_true_iff. now apply digit_not_terminator.
Qed.

(** The numbered pass on one numbered line. *)
Lemma numberedPass_numbered (ds x : str) :
  ds <> [] -> forallb isDigit ds = true -> no_terminator x = true ->
  numberedPass (ds ++ u ". " ++ x) = item x.
Proof.
  intros Hne Hd H. destruct ds as [|d ds]; [congruence|].
  unfold numberedPass, replace.
  replace ((d :: ds) ++ u ". " ++ x) with (d :: (ds ++ u ". " ++ x) ++ [])
    by (rewrite app_nil_r; reflexivity).
  rewrite (replace_from_match _ _ _ _ _ _ _ _ x).
  - cbn [replace_from]. unfold template, item. now rewrite app_nil_r.
  - rewrite app_nil_r. unfold re_numbered.
    change (d :: ds ++ u ". " ++ x) with ((d :: ds) ++ u ". " ++ x).
    rewrite (digits_app_stop (d :: ds) (u ". " ++ x)) by (assumption || reflexivity).
    rewrite skipn_app, Nat.sub_diag, skipn_all. cbn [app skipn].
    change (skipn 2 (u ". " ++ x)) with x.
    rewrite greedy_dot_whole by exact H.
    rewrite starts_with_app. cbn. rewrite length_app. cbn.
    do 2 f_equal. lia.
Qed.

Lemma bulletPass_not_bullet (l : str) :
  no_terminator l = true -> bullet_line l = false -> bulletPass l = l.
Proof.
  intros H Hb. unfold bulletPass. apply replace_never.
  apply (never_anchored_lines re_bullet bullet_line);
    [exact re_bullet_none | exact bullet_line_greedy_dot |].
  rewrite lines_single by exact H. cbn [forallb]. now rewrite Hb.
Qed.

Lemma numberedPass_not_numbered (l : str) :
  no_terminator l = true -> numbered_line l = false -> numberedPass l = l.
Proof.
  intros H Hb. unfold numberedPass. apply replace_never.
  apply (never_anchored_lines re_numbered numbered_line);
    [exact re_numbered_none | exact numbered_line_greedy_dot |].
  rewrite lines_single by exact H. cbn [forallb]. now rewrite Hb.
Qed.

(** A numbered line: digits, period, space, content. *)
Lemma classifyPass_numbered (ds c : str) :
  ds <> [] -> forallb isDigit ds = true -> no_terminator c = true ->
  classifyPass (ds ++ u ". " ++ c) = item (boldPass c).
Proof.
  intros Hne Hd H. unfold classifyPass.
  rewrite app_assoc, boldPass_copy, <- app_assoc.
  2:{ rewrite forallb_app, (digit_not_star _ Hd). reflexivity. }
  pose proof (boldPass_no_terminator _ H) as Hx.
  rewrite bulletPass_not_bullet.
  - now apply numberedPass_numbered.
  - rewrite !no_terminator_app, (digits_no_terminator _ Hd), Hx. reflexivity.
  - destruct ds as [|d ds]; [congruence|].
    cbn [forallb] in Hd. apply andb_true_iff in Hd as [Hd _].
    unfold bullet_line. cbn [app starts_with u map list_ascii_of_string].
    change (N_of_ascii "-") with 45.
    destruct (N.eqb_spec 45 d) as [<-|]; [discriminate Hd | reflexivity].
Qed.

Lemma digits_split (l : str) :
  forallb isDigit (digits l) = true
  /\ l = digits l ++ skipn (length (digits l)) l
  /\ (match skipn (length (digits l)) l with
      | [] => true
      | b :: _ => negb (isDigit b)
      end) = true.
Proof.
  induction l as [|c l (IH1 & IH2 & IH3)]; [now repeat split|].
  cbn [digits]. destruct (isDigit c) eqn:Ec.
  - cbn [forallb length skipn app]. rewrite Ec, IH1.
    repeat split; [now f_equal | exact IH3].
  - cbn [forallb length skipn app]. now rewrite Ec.
Qed.

(** The bold pass turns no line into a bullet line. *)
Lemma bullet_line_boldPass (l : str) :
  bullet_line l = false -> bullet_line (boldPass l) = false.
Proof.
  unfold bullet_line. intros H. destruct l as [|a l]; [reflexivity|].
  destruct (N.eqb_spec a 45) as [->|Ha].
  - rewrite boldPass_cons by reflexivity.
    cbn [u map list_ascii_of_string starts_with] in *.
    change (N_of_ascii "-") with 45 in *. change (N_of_ascii " ") with 32 in *.
    cbn [N.eqb Pos.eqb andb] in *.
    apply (boldPass_head 32); [reflexivity | exact H].
  - assert (E : starts_with [45] (boldPass (a :: l)) = false).
    { apply boldPass_head; [reflexivity|]. cbn [starts_with].
      rewrite andb_true_r. apply N.eqb_neq. congruence. }
    destruct (boldPass (a :: l)) as [|b r]; [reflexivity|].
    cbn [starts_with] in E |- *. rewrite andb_true_r in E.
    cbn [u map list_ascii_of_string starts_with].
    change (N_of_ascii "-") with 45. now rewrite E.
Qed.

Lemma head_not_digit_boldPass (r : str) :
  (match r with [] => true | b :: _ => negb (isDigit b) end) = true ->
  (match boldPass r with [] => true | b :: _ => negb (isDigit b) end) = true.
Proof.
  destruct r as [|b r]; [reflexivity|]. intros Hb.
  destruct (N.eqb_spec b 42) as [->|Hne].
  - destruct (boldPass_star r) as [t [-> | ->]]; reflexivity.
  - rewrite boldPass_cons by now apply N.eqb_neq. exact Hb.
Qed.

(** The bold pass turns no line into a numbered line. *)
Lemma numbered_line_boldPass (l : str) :
  numbered_line l = false -> numbered_line (boldPass l) = false.
Proof.
  unfold numbered_line. intros H.
  destruct (digits_split l) as (Hd & Hl & Hr).
  set (ds := digits l) in *. set (r := skipn (length ds) l) in *.
  rewrite Hl, boldPass_copy by now apply digit_not_star.
  rewrite (digits_app_stop ds (boldPass r) Hd (head_not_digit_boldPass r Hr)).
  rewrite skipn_app, Nat.sub_diag, skipn_all. cbn [app skipn].
  destruct (Nat.eqb (length ds) 0); [reflexivity|]. cbn [negb andb] in *.
  destruct r as [|b r']; [reflexivity|].
  destruct (N.eqb_spec b 46) as [->|Hb].
  - rewrite boldPass_cons by reflexivity.
    cbn [u map list_ascii_of_string starts_with] in *.
    change (N_of_ascii ".") with 46 in *. change (N_of_ascii " ") with 32 in *.
    cbn [N.eqb Pos.eqb andb] in *.
    apply (boldPass_head 32); [reflexivity | exact H].
  - assert (E : starts_with [46] (boldPass (b :: r')) = false).
    { apply boldPass_head; [reflexivity|]. cbn [starts_with].
      rewrite andb_true_r. apply N.eqb_neq. congruence. }
    destruct (boldPass (b :: r')) as [|b' t]; [reflexivity|].
    cbn [starts_with] in E |- *. rewrite andb_true_r in E.
    cbn [u map list_ascii_of_string starts_with].
    change (N_of_ascii ".") with 46. now rewrite E.
Qed.

(** A line that is no item: only its bold spans are rewritten. *)
Lemma classifyPass_plain (l : str) :
  no_terminator l = true ->
  bullet_line l = false -> numbered_line l = false ->
  classifyPass l = boldPass l.
Proof.
  intros H Hb Hn. unfold classifyPass.
  pose proof (boldPass_no_terminator _ H) as Hx.
  rewrite bulletPass_not_bullet by (assumption || now apply bullet_line_boldPass).
  apply numberedPass_not_numbered; [assumption | now apply numbered_line_boldPass].
Qed.

(** The three classifying passes on one line. *)
Lemma classifyPass_one_line (l : str) :
  no_terminator l = true -> classifyPass l = classify_line l.
Proof.
  intros H. unfold classify_line.
  destruct (bullet_line l) eqn:Eb.
  - unfold bullet_line in Eb. destruct (starts_with_inv _ _ Eb) as [c ->].
    rewrite no_terminator_app in H. apply andb_true_iff in H as [_ H].
    now apply classifyPass_bullet.
  - destruct (numbered_line l) eqn:En.
    + destruct (digits_split l) as (Hd & Hl & _).
      unfold numbered_line in En. apply andb_true_iff in En as [E1 E2].
      destruct (starts_with_inv _ _ E2) as [c Hc].
      rewrite Nat.add_comm, <- skipn_skipn. rewrite Hc.
      change (skipn 2 (u ". " ++ c)) with c.
      rewrite Hl at 1. rewrite Hc.
      rewrite Hl, Hc, !no_terminator_app in H.
      apply andb_true_iff in H as [_ H]. apply andb_true_iff in H as [_ H].
      apply classifyPass_numbered; [|exact Hd|exact H].
      intros E. rewrite E in E1. discriminate E1.
    + now apply classifyPass_plain.
Qed.

Lemma starts_with_terminator (p s : str) :
  no_terminator s = true -> existsb isLineTerminator p = true ->
  starts_with p s = false.
Proof.
  revert s; induction p as [|a p IH]; intros s Hs Hp; [discriminate|].
  destruct s as [|b s]; [reflexivity|].
  cbn [no_terminator forallb] in Hs. apply andb_true_iff in Hs as [Hb Hs].
  apply negb_true_iff in Hb.
  cbn [existsb] in Hp. cbn [starts_with].
  destruct (N.eqb_spec a b) as [->|]; [|reflexivity].
  rewrite Hb in Hp. cbn [orb] in Hp. now rewrite (IH s Hs Hp).
Qed.

Lemma occurs_terminator (p s : str) :
  no_terminator s = true -> existsb isLineTerminator p = true ->
  occurs p s = false.
Proof.
  intros Hs Hp. induction s as [|b s IH].
  - cbn [occurs]. now rewrite starts_with_terminator.
  - cbn [occurs]. rewrite starts_with_terminator by assumption.
    cbn [no_terminator forallb] in Hs. apply andb_true_iff in Hs as [_ Hs].
    now apply IH.
Qed.

(** The boundary passes need a line feed to act. *)
Lemma boundaryPass_one_line (s : str) :
  no_terminator s = true -> boundaryPass s = s.
Proof.
  intros H. apply boundaryPass_boundary_free. unfold boundary_free.
  now rewrite !occurs_terminator by (assumption || reflexivity).
Qed.

Lemma classify_line_no_terminator (l : str) :
  no_terminator l = true -> no_terminator (classify_line l) = true.
Proof.
  intros H. unfold classify_line.
  assert (Hs : forall k, no_terminator (skipn k l) = true).
  { intros k. rewrite <- (firstn_skipn k l), no_terminator_app in H.
    now apply andb_true_iff in H as [_ H]. }
  destruct (bullet_line l); [|destruct (numbered_line l)];
    [apply item_no_terminator | apply item_no_terminator |];
    now apply boldPass_no_terminator.
Qed.

(** On an input of one line the chain is the line classifier: a bullet
    line and a numbered line become an item element around their content,
    with the bold spans of the content rewritten, and any other line has
    only its bold spans rewritten. *)
Theorem format_one_line (l : str) :
  no_terminator l = true -> format l = classify_line l.
Proof.
  intros H. unfold format. rewrite wrapPass_id.
  rewrite classifyPass_one_line by exact H.
  apply boundaryPass_one_line. now apply classify_line_no_terminator.
Qed.

Lemma format_one_line_witness :
  format (u "- keep the **hook** short")
  = classify_line (u "- keep the **hook** short")
  /\ classify_line (u "- keep the **hook** short")
     = u "<li>keep the <strong>hook</strong> short</li>".
Proof.
  split; [apply format_one_line; reflexivity | vm_compute; reflexivity].
Defined.

Lemma map_classify_lines (ls : list str) :
  forallb no_terminator ls = true ->
  map classifyPass ls = map classify_line ls.
Proof.
  induction ls as [|l ls IH]; intros H; [reflexivity|].
  cbn [forallb] in H. apply andb_true_iff in H as [Hl H].
  cbn [map]. now rewrite classifyPass_one_line, IH.
Qed.

(** On lines joined by line feeds the chain is the line classifier applied
    to every line, followed by the three boundary passes. *)
Theorem format_lines (ls : list str) :
  forallb no_terminator ls = true ->
  format (join_lines ls) = boundaryPass (join_lines (map classify_line ls)).
Proof.
  intros H. unfold format. rewrite wrapPass_id, classifyPass_join.
  now rewrite map_classify_lines.
Qed.

Lemma format_lines_witness :
  format (join_lines [u "**Pontos Fortes:**"; u "- bom ritmo"; u "1. corte"])
  = boundaryPass (join_lines (map classify_line
      [u "**Pontos Fortes:**"; u "- bom ritmo"; u "1. corte"])).
Proof. apply format_lines. reflexivity. Defined.

(** A numbered line and a bullet line with the same content give the same
    output: the number is dropped, and nothing in the item element tells
    which kind of line it came from. *)
Theorem numbered_line_as_bullet_line (ds c : str) :
  ds <> [] -> forallb isDigit ds = true -> no_terminator c = true ->
  format (ds ++ u ". " ++ c) = item (boldPass c)
  /\ format (ds ++ u ". " ++ c) = format (u "- " ++ c).
Proof.
  intros Hne Hd Hc.
  assert (Hx : no_terminator (item (boldPass c)) = true)
    by now apply item_no_terminator, boldPass_no_terminator.
  assert (E1 : format (ds ++ u ". " ++ c) = item (boldPass c)).
  { unfold format. rewrite wrapPass_id, classifyPass_numbered by assumption.
    now apply boundaryPass_one_line. }
  split; [exact E1|]. rewrite E1.
  unfold format. rewrite wrapPass_id, classifyPass_bullet by assumption.
  symmetry. now apply boundaryPass_one_line.
Qed.

Lemma numbered_line_as_bullet_line_witness :
  format (u "12" ++ u ". " ++ u "corte **seco**")
  = item (boldPass (u "corte **seco**"))
  /\ format (u "12" ++ u ". " ++ u "corte **seco**")
     = format (u "- " ++ u "corte **seco**").
Proof. apply numbered_line_as_bullet_line; [discriminate | reflexivity | reflexivity]. Defined.

(** ** The tags the chain writes *)

Lemma starts_with_app_r (t x y : str) :
  starts_with t x = true -> starts_with t (x ++ y) = true.
Proof.
  intros H. destruct (starts_with_inv _ _ H) as [r ->].
  rewrite <- app_assoc. apply starts_with_app.
Qed.

Lemma existsb_weaken {A} (P Q : A -> bool) (l : list A) :
  (forall a, P a = true -> Q a = true) ->
  existsb P l = true -> existsb Q l = true.
Proof.
  intros H E. apply existsb_exists in E as (a & Ha & Pa).
  apply existsb_exists. exists a. auto.
Qed.

Lemma tags_only_app (T : list str) (a b : str) :
  tags_only T a = true -> tags_only T b = true -> tags_only T (a ++ b) = true.
Proof.
  intros Ha Hb. induction a as [|c a IH]; [exact Hb|].
  cbn [app tags_only] in *. apply andb_true_iff in Ha as [Hc Ha].
  rewrite (IH Ha), andb_true_r.
  destruct (c =? 60); [|reflexivity].
  revert Hc. apply existsb_weaken. intros t Ht.
  change (c :: a ++ b) with ((c :: a) ++ b). now apply starts_with_app_r.
Qed.

Lemma tags_only_suffix (T : list str) (a b : str) :
  tags_only T (a ++ b) = true -> tags_only T b = true.
Proof.
  induction a as [|c a IH]; intros H; [exact H|].
  cbn [app tags_only] in H. apply andb_true_iff in H as [_ H]. now apply IH.
Qed.

Lemma tags_only_incl (T T' : list str) (s : str) :
  incl T T' -> tags_only T s = true -> tags_only T' s = true.
Proof.
  intros HT. induction s as [|c s IH]; intros H; [reflexivity|].
  cbn [tags_only] in *. apply andb_true_iff in H as [Hc H].
  rewrite (IH H), andb_true_r.
  destruct (c =? 60); [|reflexivity].
  apply existsb_exists in Hc as (t & Ht & Hs).
  apply existsb_exists. exists t. auto.
Qed.

Lemma tags_only_no_bracket (T : list str) (s : str) :
  occurs (u "<") s = false -> tags_only T s = true.
Proof.
  induction s as [|c s IH]; intros H; [reflexivity|].
  apply occurs_cons in H as [H1 H2].
  cbn [tags_only]. rewrite (IH H2), andb_true_r.
  cbn [u map list_ascii_of_string starts_with] in H1.
  change (N_of_ascii "<") with 60 in H1. rewrite andb_true_r in H1.
  rewrite N.eqb_sym in H1. now rewrite H1.
Qed.

(** A tag that begins in [x ++ y] and has no code unit equal to the head
    of [y] lies within [x]. *)
Lemma starts_with_cut (t x y : str) :
  (match y with
   | [] => true
   | d :: _ => negb (existsb (N.eqb d) t)
   end) = true ->
  starts_with t (x ++ y) = true -> starts_with t x = true.
Proof.
  intros Hy. revert x; induction t as [|a t IH]; intros x H; [reflexivity|].
  destruct x as [|b x].
  - destruct y as [|d y]; [discriminate H|].
    cbn [app starts_with] in H. apply andb_true_iff in H as [H _].
    apply N.eqb_eq in H. subst d.
    cbn [existsb] in Hy. rewrite N.eqb_refl in Hy. discriminate Hy.
  - cbn [app starts_with] in *. apply andb_true_iff in H as [Hab H].
    rewrite Hab. apply IH; [|exact H].
    destruct y as [|d y]; [reflexivity|].
    cbn [existsb] in Hy. apply negb_true_iff in Hy.
    apply orb_false_iff in Hy as [_ Hy]. now rewrite Hy.
Qed.

(** A piece of a subject, cut before a code unit that no tag contains. *)
Lemma tags_only_piece (T : list str) (g b : str) :
  (match b with
   | [] => true
   | d :: _ => forallb (fun t => negb (existsb (N.eqb d) t)) T
   end) = true ->
  tags_only T (g ++ b) = true -> tags_only T g = true.
Proof.
  intros Hb. induction g as [|c g IH]; intros H; [reflexivity|].
  cbn [app tags_only] in *. apply andb_true_iff in H as [Hc H].
  rewrite (IH H), andb_true_r.
  destruct (c =? 60); [|reflexivity].
  apply existsb_exists in Hc as (t & Ht & Hs).
  apply existsb_exists. exists t. split; [exact Ht|].
  apply (starts_with_cut t (c :: g) b); [|exact Hs].
  destruct b as [|d b]; [reflexivity|].
  rewrite forallb_forall in Hb. now apply Hb.
Qed.

Section ScanTags.

Variables (re : matcher) (f : replacer) (original : str).
Variables (T : list str) (start : N -> bool).

(** A match begins with a code unit of [start]. *)
Hypothesis match_start :
  forall bol c s n g, re bol (c :: s) = Some (n, g) -> start c = true.

(** No tag has a code unit of [start] behind its first. *)
Hypothesis tags_inner :
  forallb (fun t => forallb (fun c => negb (start c)) (tl t)) T = true.

(** Every replacement is made of text and tags of [T]. *)
Hypothesis replacement_tags :
  forall bol s n g off,
    re bol s = Some (S n, g) -> tags_only T s = true ->
    tags_only T (f (firstn (S n) s) g off original) = true.

Lemma no_match_inside (w r : str) (bol : bool) :
  forallb (fun c => negb (start c)) w = true ->
  forall p1 p2, w = p1 ++ p2 -> p2 <> [] ->
    re (bol_after bol p1) (p2 ++ r) = None.
Proof.
  intros Hw p1 p2 -> Hp2. destruct p2 as [|c p2]; [congruence|].
  rewrite forallb_app in Hw. apply andb_true_iff in Hw as [_ Hw].
  cbn [forallb] in Hw. apply andb_true_iff in Hw as [Hc _].
  apply negb_true_iff in Hc.
  destruct (re _ _) as [[n g]|] eqn:E; [|reflexivity].
  cbn [app] in E. apply match_start in E. congruence.
Qed.

(** The scan keeps the subject made of text and tags of [T]. *)
Lemma replace_from_tags :
  forall s bol off k,
    tags_only T s = true ->
    tags_only T (replace_from re f original bol off k s) = true.
Proof.
  induction s as [|c s IH]; intros bol off k H; [reflexivity|].
  pose proof H as H'. cbn [tags_only] in H'.
  apply andb_true_iff in H' as [Hc Hs].
  cbn [replace_from]. destruct k as [|k]; [|now apply IH].
  assert (Hcopy : tags_only T
            (c :: replace_from re f original (isLineTerminator c) (S off) 0 s)
          = true).
  { cbn [tags_only]. rewrite IH by exact Hs. rewrite andb_true_r.
    destruct (c =? 60); [|reflexivity].
    apply existsb_exists in Hc as (t & Ht & Hst).
    apply existsb_exists. exists t. split; [exact Ht|].
    destruct t as [|a w]; [reflexivity|].
    cbn [starts_with] in Hst. apply andb_true_iff in Hst as [Hac Hw].
    destruct (starts_with_inv _ _ Hw) as [r ->].
    rewrite forallb_forall in tags_inner. specialize (tags_inner _ Ht).
    cbn [tl] in tags_inner.
    rewrite replace_from_copy by now apply no_match_inside.
    cbn [starts_with]. rewrite Hac. apply starts_with_app. }
  destruct (re bol (c :: s)) as [[[|n] g]|] eqn:E; [exact Hcopy | | exact Hcopy].
  apply tags_only_app; [now apply (replacement_tags _ _ _ _ off E) | now apply IH].
Qed.

End ScanTags.

Lemma template_tags (T : list str) (pre post m g : str) (off : nat) (o : str) :
  tags_only T pre = true -> tags_only T post = true -> tags_only T g = true ->
  tags_only T (template pre post m g off o) = true.
Proof.
  intros Hpre Hpost Hg. unfold template.
  apply tags_only_app; [exact Hpre|]. now apply tags_only_app.
Qed.

Lemma tags_only_skipn (T : list str) (k : nat) (s : str) :
  tags_only T s = true -> tags_only T (skipn k s) = true.
Proof.
  intros H. rewrite <- (firstn_skipn k s) in H.
  now apply tags_only_suffix in H.
Qed.

Lemma not_in_tag (P : N -> bool) (d : N) (t : str) :
  forallb (fun c => negb (P c)) t = true -> P d = true ->
  negb (existsb (N.eqb d) t) = true.
Proof.
  intros Ht Hd. apply negb_true_iff.
  destruct (existsb (N.eqb d) t) eqn:E; [|reflexivity].
  apply existsb_exists in E as (c & Hc & Hdc). apply N.eqb_eq in Hdc. subst c.
  rewrite forallb_forall in Ht. specialize (Ht _ Hc). now rewrite Hd in Ht.
Qed.

Section TagsKept.

Variable T : list str.
Hypothesis shaped : forallb tag_shaped T = true.

Lemma shaped_outer (P : N -> bool) :
  (forall c, P c = true -> isLineTerminator c || (c =? 42) = true) ->
  forall d, P d = true ->
    forallb (fun t => negb (existsb (N.eqb d) t)) T = true.
Proof.
  intros HP d Hd. apply forallb_forall. intros t Ht.
  rewrite forallb_forall in shaped. specialize (shaped _ Ht).
  unfold tag_shaped in shaped. apply andb_true_iff in shaped as [H1 _].
  apply (not_in_tag (fun c => isLineTerminator c || (c =? 42))); [|now apply HP].
  rewrite forallb_forall in H1 |- *. intros c Hc. specialize (H1 _ Hc).
  now rewrite negb_orb.
Qed.

Lemma shaped_inner (start : N -> bool) :
  (forall c, start c = true ->
             (c =? 42) || (c =? 45) || isDigit c || (c =? 60) = true) ->
  forallb (fun t => forallb (fun c => negb (start c)) (tl t)) T = true.
Proof.
  intros Hs. apply forallb_forall. intros t Ht.
  rewrite forallb_forall in shaped. specialize (shaped _ Ht).
  unfold tag_shaped in shaped. apply andb_true_iff in shaped as [_ H2].
  rewrite forallb_forall in H2 |- *. intros c Hc. specialize (H2 _ Hc).
  apply negb_true_iff. apply negb_true_iff in H2.
  destruct (start c) eqn:E; [|reflexivity]. apply Hs in E. congruence.
Qed.

Lemma tags_only_greedy_dot (s : str) :
  tags_only T s = true -> tags_only T (greedy_dot s) = true.
Proof.
  intros H. destruct (greedy_dot_split s) as (_ & r & Hs & Hr).
  rewrite Hs in H. apply (tags_only_piece T _ r); [|exact H].
  destruct r as [|d r]; [reflexivity|].
  apply (shaped_outer isLineTerminator); [|exact Hr].
  intros c Hc. now rewrite Hc.
Qed.

Lemma boldPass_tags (s : str) :
  tags_only T (u "<strong>") = true -> tags_only T (u "</strong>") = true ->
  tags_only T s = true -> tags_only T (boldPass s) = true.
Proof.
  intros Ho Hc H. unfold boldPass, replace.
  apply (replace_from_tags _ _ _ _ (fun c => c =? 42)); [| | | exact H].
  - intros bol c t n g E. unfold re_bold in E.
    destruct (starts_with (u "**") (c :: t)) eqn:Es; [|discriminate].
    cbn [u map list_ascii_of_string starts_with] in Es.
    apply andb_true_iff in Es as [Es _]. now rewrite N.eqb_sym.
  - apply shaped_inner. intros c ->. reflexivity.
  - intros bol t n g off E Ht. unfold re_bold in E.
    destruct (starts_with (u "**") t) eqn:Es; [|discriminate].
    destruct (lazy_dot_then _ _) as [g'|] eqn:El; [|discriminate].
    injection E as _ <-.
    apply lazy_dot_then_split in El as [_ [r Hr]].
    apply (tags_only_skipn _ 2) in Ht. rewrite Hr in Ht.
    apply template_tags; [assumption | assumption |].
    apply (tags_only_piece T _ (u "**" ++ r)); [|exact Ht].
    apply (shaped_outer (fun c => c =? 42)); [|reflexivity].
    intros c ->. apply orb_true_r.
Qed.

Lemma bulletPass_tags (s : str) :
  tags_only T (u "<li>") = true -> tags_only T (u "</li>") = true ->
  tags_only T s = true -> tags_only T (bulletPass s) = true.
Proof.
  intros Ho Hc H. unfold bulletPass, replace.
  apply (replace_from_tags _ _ _ _ (fun c => c =? 45)); [| | | exact H].
  - intros bol c t n g E. unfold re_bullet in E.
    destruct (bol && starts_with (u "- ") (c :: t)) eqn:Es; [|discriminate].
    apply andb_true_iff in Es as [_ Es].
    cbn [u map list_ascii_of_string starts_with] in Es.
    apply andb_true_iff in Es as [Es _]. now rewrite N.eqb_sym.
  - apply shaped_inner. intros c ->. now rewrite !orb_true_r.
  - intros bol t n g off E Ht. unfold re_bullet in E.
    destruct (bol && starts_with (u "- ") t); [|discriminate].
    injection E as _ <-.
    apply template_tags; [assumption | assumption |].
    exact (tags_only_greedy_dot _ (tags_only_skipn _ 2 _ Ht)).
Qed.

Lemma numberedPass_tags (s : str) :
  tags_only T (u "<li>") = true -> tags_only T (u "</li>") = true ->
  tags_only T s = true -> tags_only T (numberedPass s) = true.
Proof.
  intros Ho Hc H. unfold numberedPass, replace.
  apply (replace_from_tags _ _ _ _ isDigit); [| | | exact H].
  - intros bol c t n g E. unfold re_numbered in E.
    cbn [digits] in E. destruct (isDigit c); [reflexivity|].
    cbn [length Nat.eqb negb] in E. rewrite andb_false_r in E. discriminate E.
  - apply shaped_inner. intros c ->. now rewrite !orb_true_r.
  - intros bol t n g off E Ht. unfold re_numbered in E.
    destruct (bol && _ && _); [|discriminate].
    injection E as _ <-.
    apply template_tags; [assumption | assumption |].
    exact (tags_only_greedy_dot _
             (tags_only_skipn _ 2 _ (tags_only_skipn _ (length (digits t)) _ Ht))).
Qed.

(** A pass with a literal pattern that begins with [<] and a replacement
    made of text and tags. *)
Lemma literalPass_tags (g rest : str) (f : replacer) (s : str) :
  starts_with (u "<") (g ++ rest) = true ->
  (forall m off o, tags_only T (f m g off o) = true) ->
  tags_only T s = true ->
  tags_only T (replace (re_literal g rest) f s) = true.
Proof.
  intros Hp Hf H. unfold replace.
  apply (replace_from_tags _ _ _ _ (fun c => c =? 60)); [| | | exact H].
  - intros bol c t n g' E. unfold re_literal in E.
    destruct (starts_with (g ++ rest) (c :: t)) eqn:Es; [|discriminate].
    destruct (starts_with_inv _ _ Hp) as [r Hr]. rewrite Hr in Es.
    cbn [u map list_ascii_of_string app starts_with] in Es.
    apply andb_true_iff in Es as [Es _]. now rewrite N.eqb_sym.
  - apply shaped_inner. intros c ->. now rewrite !orb_true_r.
  - intros bol t n g' off E _. unfold re_literal in E.
    destruct (starts_with (g ++ rest) t); [|discriminate].
    injection E as _ <-. apply Hf.
Qed.

End TagsKept.

Lemma format_tags (s : str) :
  tags_only chain_tags s = true -> tags_only chain_tags (format s) = true.
Proof.
  intros H. unfold format, classifyPass. rewrite wrapPass_id.
  unfold boundaryPass, blankLinePass, closeBeforeBoldPass, openAfterBoldPass.
  repeat (apply literalPass_tags;
          [reflexivity | reflexivity | intros; reflexivity |]).
  apply numberedPass_tags; try reflexivity.
  apply bulletPass_tags; try reflexivity.
  apply boldPass_tags; try reflexivity. exact H.
Qed.

Lemma clash_starts (t p x : str) :
  clash t p = true -> starts_with t x = true -> starts_with p x = false.
Proof.
  revert p x; induction t as [|a t IH]; intros p x Hc Ht; [discriminate|].
  destruct p as [|b p]; [discriminate|].
  destruct x as [|c x]; [discriminate|].
  cbn [clash starts_with] in *. apply andb_true_iff in Ht as [Hac Ht].
  apply N.eqb_eq in Hac. subst c.
  destruct (N.eqb_spec b a) as [->|]; [|reflexivity].
  rewrite N.eqb_refl in Hc. cbn [negb orb] in Hc.
  cbn [andb]. now apply IH.
Qed.

(** A text that begins with [<] and clashes with every tag of [T] does not
    occur in a subject made of text and tags of [T]. *)
Lemma tags_only_no_occurrence (T : list str) (p s : str) :
  starts_with (u "<") p = true ->
  forallb (fun t => clash t p) T = true ->
  tags_only T s = true -> occurs p s = false.
Proof.
  intros Hp Hc. destruct (starts_with_inv _ _ Hp) as [p' ->].
  induction s as [|c s IH]; intros H; [reflexivity|].
  cbn [tags_only] in H. apply andb_true_iff in H as [H1 H2].
  cbn [occurs]. rewrite (IH H2), orb_false_r.
  destruct (N.eqb_spec c 60) as [->|Hne].
  - apply existsb_exists in H1 as (t & Ht & Hs).
    rewrite forallb_forall in Hc. apply (clash_starts t); auto.
  - cbn [u map list_ascii_of_string app starts_with].
    change (N_of_ascii "<") with 60.
    destruct (N.eqb_spec 60 c); [congruence | reflexivity].
Qed.

Lemma occurs_app_r (a q s : str) :
  occurs q s = false -> occurs (a ++ q) s = false.
Proof.
  induction s as [|c s IH]; intros H.
  - cbn [occurs] in *. rewrite orb_false_r in *.
    destruct (starts_with (a ++ q) []) eqn:E; [|reflexivity].
    destruct (starts_with_inv _ _ E) as [r Hr].
    destruct a; [|discriminate Hr]. cbn [app] in E. congruence.
  - pose proof H as H'. apply occurs_cons in H' as [_ H2].
    cbn [occurs]. rewrite (IH H2), orb_false_r.
    destruct (starts_with (a ++ q) (c :: s)) eqn:E; [|reflexivity].
    destruct (starts_with_inv _ _ E) as [r Hr].
    rewrite Hr, <- app_assoc, occurs_mid in H. discriminate H.
Qed.

(** When every [<] of the input begins one of the six tags of the
    replacement texts, and so when the input has no [<] at all, every [<]
    of the output begins one of them: the chain writes no other tag, and
    the output has no ordered-list tag. *)
Theorem format_writes_six_tags (s : str) :
  tags_only chain_tags s = true ->
  tags_only chain_tags (format s) = true
  /\ occurs (u "<ol>") (format s) = false
  /\ occurs (u "</ol>") (format s) = false.
Proof.
  intros H. pose proof (format_tags s H) as Hf.
  split; [exact Hf|].
  split; apply (tags_only_no_occurrence chain_tags); auto.
Qed.

Lemma format_writes_six_tags_witness :
  tags_only chain_tags (u "1. corte" ++ nl ++ u "2. **ritmo**") = true
  /\ tags_only chain_tags (format (u "1. corte" ++ nl ++ u "2. **ritmo**")) = true
  /\ occurs (u "<ol>") (format (u "1. corte" ++ nl ++ u "2. **ritmo**")) = false
  /\ occurs (u "</ol>") (format (u "1. corte" ++ nl ++ u "2. **ritmo**")) = false.
Proof.
  split; [reflexivity|]. apply format_writes_six_tags. reflexivity.
Defined.

(** An input without [<] and without two adjacent stars never gets an
    opening list tag: whatever bullet and numbered lines it has, their item
    elements stay outside any container. *)
Theorem no_container_without_bold (s : str) :
  occurs (u "<") s = false ->
  occurs (u "**") s = false ->
  occurs (u "<ul>") (format s) = false
  /\ occurs (u "<ol>") (format s) = false.
Proof.
  intros Hlt Hstar.
  set (T2 := [u "<li>"; u "</li>"]).
  set (T3 := [u "<li>"; u "</li>"; u "</ul>"; u "<strong>"]).
  assert (H2 : tags_only T2 (classifyPass s) = true).
  { unfold classifyPass, boldPass.
    rewrite (replace_never _ _ _ (never_bold _ _ Hstar)).
    apply numberedPass_tags; try reflexivity.
    apply bulletPass_tags; try reflexivity.
    now apply tags_only_no_bracket. }
  assert (H3 : tags_only T3 (format s) = true).
  { unfold format, boundaryPass. rewrite wrapPass_id.
    unfold openAfterBoldPass. rewrite replace_never.
    2:{ apply never_literal.
        apply (tags_only_no_occurrence T2); [reflexivity | reflexivity | exact H2]. }
    unfold closeBeforeBoldPass. rewrite replace_never.
    2:{ apply never_literal.
        change (u "</li>" ++ nl ++ u "<strong>")
          with ((u "</li>" ++ nl) ++ u "<strong>").
        apply occurs_app_r.
        apply (tags_only_no_occurrence T2); [reflexivity | reflexivity | exact H2]. }
    unfold blankLinePass.
    apply literalPass_tags; [reflexivity | reflexivity | intros; reflexivity |].
    apply (tags_only_incl T2); [|exact H2].
    intros t [<-|[<-|[]]]; cbn; auto. }
  split; apply (tags_only_no_occurrence T3); auto.
Qed.

Lemma no_container_without_bold_witness :
  occurs (u "<ul>")
    (format (u "- gancho" ++ nl ++ u "- ritmo" ++ nl ++ nl ++ u "1. corte")) = false
  /\ occurs (u "<ol>")
    (format (u "- gancho" ++ nl ++ u "- ritmo" ++ nl ++ nl ++ u "1. corte")) = false.
Proof. apply no_container_without_bold; reflexivity. Defined.

(** ** A list between two headings *)

Section LiteralPass.

Variables (g rest : str) (f : replacer).

Hypothesis f_same :
  forall m g' o1 o2 s1 s2, f m g' o1 s1 = f m g' o2 s2.

Let pass : str -> str := replace (re_literal g rest) f.

Lemma literal_from (s original : str) (bol : bool) (off : nat) :
  replace_from (re_literal g rest) f original bol off 0 s = pass s.
Proof. apply replace_from_indep; [reflexivity | exact f_same]. Qed.

(** Where the pattern does not match, the code unit is copied. *)
Lemma literal_skip (c : N) (s : str) :
  starts_with (g ++ rest) (c :: s) = false -> pass (c :: s) = c :: pass s.
Proof.
  intros H. unfold pass at 1, replace. cbn [replace_from].
  unfold re_literal at 1. rewrite H. now rewrite literal_from.
Qed.

(** Where it matches, the replacement is written. *)
Lemma literal_match (r : str) :
  g ++ rest <> [] ->
  pass ((g ++ rest) ++ r) = f (g ++ rest) g 0%nat [] ++ pass r.
Proof.
  intros Hne. destruct (g ++ rest) as [|c p'] eqn:E; [congruence|].
  unfold pass at 1, replace. cbn [app].
  rewrite (replace_from_match _ _ _ _ _ _ _ _ g).
  - rewrite literal_from. f_equal. apply f_same.
  - unfold re_literal. rewrite E.
    change (c :: p' ++ r) with ((c :: p') ++ r). now rewrite starts_with_app.
Qed.

(** Text without [<] is copied when the pattern begins with [<]. *)
Lemma literal_text (a r : str) :
  starts_with (u "<") (g ++ rest) = true ->
  occurs (u "<") a = false -> pass (a ++ r) = a ++ pass r.
Proof.
  intros Hp. destruct (starts_with_inv _ _ Hp) as [p' Hp'].
  induction a as [|c a IH]; intros Ha; [reflexivity|].
  apply occurs_cons in Ha as [H1 H2].
  cbn [app]. rewrite literal_skip; [now rewrite IH|].
  rewrite Hp'. cbn [u map list_ascii_of_string app starts_with] in H1 |- *.
  rewrite andb_true_r in H1. now rewrite H1.
Qed.

End LiteralPass.

Lemma open_skip (c : N) (s : str) :
  starts_with (u "</strong>" ++ nl ++ u "<li>") (c :: s) = false ->
  openAfterBoldPass (c :: s) = c :: openAfterBoldPass s.
Proof. apply literal_skip. reflexivity. Qed.

Lemma open_text (a r : str) :
  occurs (u "<") a = false ->
  openAfterBoldPass (a ++ r) = a ++ openAfterBoldPass r.
Proof. apply literal_text; reflexivity. Qed.

Lemma open_match (r : str) :
  openAfterBoldPass (u "</strong>" ++ nl ++ u "<li>" ++ r)
  = u "</strong><ul><li>" ++ openAfterBoldPass r.
Proof.
  unfold openAfterBoldPass.
  change (u "</strong>" ++ nl ++ u "<li>" ++ r)
    with ((u "</strong>" ++ nl ++ u "<li>") ++ r).
  rewrite literal_match; [reflexivity | reflexivity | discriminate].
Qed.

Lemma close_skip (c : N) (s : str) :
  starts_with (u "</li>" ++ nl ++ u "<strong>") (c :: s) = false ->
  closeBeforeBoldPass (c :: s) = c :: closeBeforeBoldPass s.
Proof. apply literal_skip. reflexivity. Qed.

Lemma close_text (a r : str) :
  occurs (u "<") a = false ->
  closeBeforeBoldPass (a ++ r) = a ++ closeBeforeBoldPass r.
Proof. apply literal_text; reflexivity. Qed.

Lemma close_match (r : str) :
  closeBeforeBoldPass (u "</li>" ++ nl ++ u "<strong>" ++ r)
  = u "</li></ul><strong>" ++ closeBeforeBoldPass r.
Proof.
  unfold closeBeforeBoldPass.
  change (u "</li>" ++ nl ++ u "<strong>" ++ r)
    with ((u "</li>" ++ nl ++ u "<strong>") ++ r).
  rewrite literal_match; [reflexivity | reflexivity | discriminate].
Qed.

Lemma blank_skip (c : N) (s : str) :
  starts_with (u "</li>" ++ nl ++ nl ++ u "<li>") (c :: s) = false ->
  blankLinePass (c :: s) = c :: blankLinePass s.
Proof. apply literal_skip. reflexivity. Qed.

Lemma blank_text (a r : str) :
  occurs (u "<") a = false ->
  blankLinePass (a ++ r) = a ++ blankLinePass r.
Proof. apply literal_text; reflexivity. Qed.

(** Known code units that the pattern of a pass does not match are copied
    one by one. *)
Ltac copy_token skip :=
  unfold nl; cbn [u map list_ascii_of_string app];
  repeat (rewrite skip by reflexivity); reflexivity.

Lemma open_nl (r : str) :
  openAfterBoldPass (nl ++ r) = nl ++ openAfterBoldPass r.
Proof. copy_token open_skip. Qed.

Lemma open_strong (r : str) :
  openAfterBoldPass (u "<strong>" ++ r) = u "<strong>" ++ openAfterBoldPass r.
Proof. copy_token open_skip. Qed.

Lemma open_li (r : str) :
  openAfterBoldPass (u "<li>" ++ r) = u "<li>" ++ openAfterBoldPass r.
Proof. copy_token open_skip. Qed.

Lemma open_end_li (r : str) :
  openAfterBoldPass (u "</li>" ++ r) = u "</li>" ++ openAfterBoldPass r.
Proof. copy_token open_skip. Qed.

Lemma close_nl (r : str) :
  closeBeforeBoldPass (nl ++ r) = nl ++ closeBeforeBoldPass r.
Proof. copy_token close_skip. Qed.

Lemma close_strong (r : str) :
  closeBeforeBoldPass (u "<strong>" ++ r) = u "<strong>" ++ closeBeforeBoldPass r.
Proof. copy_token close_skip. Qed.

Lemma close_end_strong_ul_li (r : str) :
  closeBeforeBoldPass (u "</strong><ul><li>" ++ r)
  = u "</strong><ul><li>" ++ closeBeforeBoldPass r.
Proof. copy_token close_skip. Qed.

Lemma close_end_li_li (r : str) :
  closeBeforeBoldPass (u "</li>" ++ nl ++ u "<li>" ++ r)
  = u "</li>" ++ nl ++ u "<li>" ++ closeBeforeBoldPass r.
Proof. copy_token close_skip. Qed.

Lemma blank_strong (r : str) :
  blankLinePass (u "<strong>" ++ r) = u "<strong>" ++ blankLinePass r.
Proof. copy_token blank_skip. Qed.

Lemma blank_end_strong_ul_li (r : str) :
  blankLinePass (u "</strong><ul><li>" ++ r)
  = u "</strong><ul><li>" ++ blankLinePass r.
Proof. copy_token blank_skip. Qed.

Lemma blank_end_li_li (r : str) :
  blankLinePass (u "</li>" ++ nl ++ u "<li>" ++ r)
  = u "</li>" ++ nl ++ u "<li>" ++ blankLinePass r.
Proof. copy_token blank_skip. Qed.

Lemma blank_end_li_ul_strong (r : str) :
  blankLinePass (u "</li></ul><strong>" ++ r)
  = u "</li></ul><strong>" ++ blankLinePass r.
Proof. copy_token blank_skip. Qed.

Lemma open_after_items (U : str) (items : list str) :
  occurs (u "<") U = false ->
  forallb (fun a => negb (occurs (u "<") a)) items = true ->
  openAfterBoldPass (after_feeds (map item items) (nl ++ strong U))
  = after_feeds (map item items) (nl ++ strong U).
Proof.
  intros HU. induction items as [|a items IH]; intros H.
  - cbn [map after_feeds fold_right]. unfold strong.
    rewrite open_nl, open_strong, open_text by exact HU. reflexivity.
  - cbn [forallb] in H. apply andb_true_iff in H as [Ha H].
    apply negb_true_iff in Ha.
    cbn [map after_feeds fold_right]. fold (after_feeds (map item items) (nl ++ strong U)).
    unfold item at 1 3. rewrite <- ?app_assoc.
    rewrite open_nl, open_li, open_text, open_end_li, IH by assumption.
    reflexivity.
Qed.

Lemma close_after_items (U : str) (items : list str) (a : str) :
  occurs (u "<") U = false ->
  occurs (u "<") a = false ->
  forallb (fun a => negb (occurs (u "<") a)) items = true ->
  closeBeforeBoldPass
    (a ++ u "</li>" ++ after_feeds (map item items) (nl ++ strong U))
  = a ++ u "</li>" ++ after_feeds (map item items) (u "</ul>" ++ strong U).
Proof.
  intros HU. revert a. induction items as [|b items IH]; intros a Ha H.
  - cbn [map after_feeds fold_right]. unfold strong.
    rewrite close_text, close_match, close_text by assumption. reflexivity.
  - cbn [forallb] in H. apply andb_true_iff in H as [Hb H].
    apply negb_true_iff in Hb.
    cbn [map after_feeds fold_right].
    fold (after_feeds (map item items) (nl ++ strong U)).
    fold (after_feeds (map item items) (u "</ul>" ++ strong U)).
    unfold item at 1 3. rewrite <- ?app_assoc.
    rewrite close_text, close_end_li_li, IH by assumption.
    reflexivity.
Qed.

Lemma blank_end_li_end_ul (r : str) :
  blankLinePass (u "</li>" ++ u "</ul>" ++ r)
  = u "</li>" ++ u "</ul>" ++ blankLinePass r.
Proof. copy_token blank_skip. Qed.

Lemma blank_after_items (U : str) (items : list str) (a : str) :
  occurs (u "<") U = false ->
  occurs (u "<") a = false ->
  forallb (fun a => negb (occurs (u "<") a)) items = true ->
  blankLinePass
    (a ++ u "</li>" ++ after_feeds (map item items) (u "</ul>" ++ strong U))
  = a ++ u "</li>" ++ after_feeds (map item items) (u "</ul>" ++ strong U).
Proof.
  intros HU. revert a. induction items as [|b items IH]; intros a Ha H.
  - cbn [map after_feeds fold_right]. unfold strong. rewrite <- ?app_assoc.
    rewrite blank_text, blank_end_li_end_ul, blank_strong, blank_text
      by assumption.
    reflexivity.
  - cbn [forallb] in H. apply andb_true_iff in H as [Hb H].
    apply negb_true_iff in Hb.
    cbn [map after_feeds fold_right].
    fold (after_feeds (map item items) (u "</ul>" ++ strong U)).
    unfold item at 1 3. rewrite <- ?app_assoc.
    rewrite blank_text, blank_end_li_li, IH by assumption.
    reflexivity.
Qed.

(** The boundary passes on a heading, items and a heading, each on its
    line: one container is opened behind the first heading and closed
    before the second. *)
Lemma boundaryPass_heading_items_heading (T U a : str) (items : list str) :
  occurs (u "<") T = false -> occurs (u "<") U = false ->
  occurs (u "<") a = false ->
  forallb (fun a => negb (occurs (u "<") a)) items = true ->
  boundaryPass
    (strong T ++ nl ++ item a ++ after_feeds (map item items) (nl ++ strong U))
  = strong T ++ u "<ul>" ++ item a
      ++ after_feeds (map item items) (u "</ul>" ++ strong U).
Proof.
  intros HT HU Ha H. unfold boundaryPass.
  unfold strong at 1, item at 1. rewrite <- ?app_assoc.
  rewrite open_strong, open_text, open_match, open_text, open_end_li,
    open_after_items by assumption.
  rewrite close_strong, close_text, close_end_strong_ul_li,
    close_after_items by assumption.
  rewrite blank_strong, blank_text, blank_end_strong_ul_li,
    blank_after_items by assumption.
  unfold strong at 2, item at 2. rewrite <- ?app_assoc. reflexivity.
Qed.

Lemma join_lines_after_feeds (x : str) (xs : list str) (y : str) :
  join_lines (x :: xs ++ [y]) = x ++ after_feeds xs (nl ++ y).
Proof.
  revert x; induction xs as [|x' xs IH]; intros x; [reflexivity|].
  change (join_lines (x :: (x' :: xs) ++ [y]))
    with (x ++ nl ++ join_lines (x' :: xs ++ [y])).
  rewrite IH. cbn [after_feeds fold_right]. now rewrite <- ?app_assoc.
Qed.

Lemma after_feeds_join (x : str) (xs : list str) (tail : str) :
  x ++ after_feeds xs tail = join_lines (x :: xs) ++ tail.
Proof.
  revert x; induction xs as [|x' xs IH]; intros x; [reflexivity|].
  change (join_lines (x :: x' :: xs)) with (x ++ nl ++ join_lines (x' :: xs)).
  cbn [after_feeds fold_right]. fold (after_feeds xs tail).
  rewrite <- ?app_assoc. now rewrite IH.
Qed.

Lemma no_star_no_marker (c : str) :
  occurs (u "*") c = false ->
  occurs (u "**") c = false /\ occurs (u "**") (c ++ u "*") = false.
Proof.
  induction c as [|a c IH]; intros H; [now split|].
  apply occurs_cons in H as [H1 H2]. destruct (IH H2) as [IH1 IH2].
  cbn [u map list_ascii_of_string starts_with] in H1.
  rewrite andb_true_r in H1.
  split; cbn [app occurs]; rewrite ?IH1, ?IH2, orb_false_r;
    cbn [u map list_ascii_of_string starts_with]; now rewrite H1.
Qed.

Lemma plain_text_parts (c : str) :
  plain_text c = true ->
  no_terminator c = true /\ occurs (u "<") c = false
  /\ occurs (u "*") c = false.
Proof.
  unfold plain_text. intros H.
  apply andb_true_iff in H as [H H3]. apply andb_true_iff in H as [H1 H2].
  apply negb_true_iff in H2, H3. auto.
Qed.

Lemma boldPass_plain_text (c : str) : plain_text c = true -> boldPass c = c.
Proof.
  intros H. apply plain_text_parts in H as (_ & _ & H).
  apply no_star_no_marker in H as [H _].
  apply replace_never. now apply never_bold.
Qed.

Lemma classifyPass_heading (title : str) :
  plain_text title = true -> classifyPass (heading_line title) = strong title.
Proof.
  intros H. pose proof (plain_text_parts _ H) as (Ht & _ & Hs).
  apply no_star_no_marker in Hs as [_ Hs].
  unfold heading_line. rewrite classifyPass_plain.
  - pose proof (boldPass_span [] title [] eq_refl Ht Hs) as E.
    cbn [app] in E. rewrite app_nil_r in E. exact E.
  - rewrite !no_terminator_app, Ht. reflexivity.
  - reflexivity.
  - reflexivity.
Qed.

Lemma classifyPass_item_line (mc : marker * str) :
  marker_ok (fst mc) && plain_text (snd mc) = true ->
  classifyPass (item_line mc) = item (snd mc).
Proof.
  destruct mc as [m c]. cbn [fst snd]. intros H.
  apply andb_true_iff in H as [Hm Hc].
  pose proof (plain_text_parts _ Hc) as (Ht & _ & _).
  unfold item_line. cbn [fst snd]. destruct m as [|ds]; cbn [marker_text].
  - rewrite classifyPass_bullet by exact Ht. now rewrite boldPass_plain_text.
  - cbn [marker_ok] in Hm. apply andb_true_iff in Hm as [Hn Hd].
    rewrite <- app_assoc, classifyPass_numbered; try assumption.
    + now rewrite boldPass_plain_text.
    + intros ->. discriminate Hn.
Qed.

(** A heading line, list lines, a heading line: the items stand in one
    unordered container between the two bold elements, whether the list
    lines are bullet lines or numbered lines. *)
Theorem list_between_headings
    (T U : str) (first : marker * str) (others : list (marker * str)) :
  plain_text T = true -> plain_text U = true ->
  forallb (fun mc => marker_ok (fst mc) && plain_text (snd mc))
          (first :: others) = true ->
  format (join_lines
            (heading_line T :: map item_line (first :: others)
               ++ [heading_line U]))
  = strong T ++ u "<ul>"
      ++ join_lines (map (fun mc => item (snd mc)) (first :: others))
      ++ u "</ul>" ++ strong U.
Proof.
  intros HT HU H.
  assert (Hlt : forallb (fun a => negb (occurs (u "<") a)) (map snd others) = true).
  { cbn [forallb] in H. apply andb_true_iff in H as [_ H].
    rewrite forallb_forall in H |- *. intros c Hc.
    apply in_map_iff in Hc as (mc & <- & Hmc). specialize (H _ Hmc).
    apply andb_true_iff in H as [_ H].
    apply plain_text_parts in H as (_ & H & _). now rewrite H. }
  assert (Hmap : map classifyPass (map item_line (first :: others))
                 = map item (map snd (first :: others))).
  { rewrite !map_map. apply map_ext_in. intros mc Hmc.
    rewrite forallb_forall in H. now apply classifyPass_item_line, H. }
  pose proof H as H'. cbn [forallb] in H'. apply andb_true_iff in H' as [H1 _].
  apply andb_true_iff in H1 as [_ H1].
  apply plain_text_parts in H1 as (_ & H1 & _).
  apply plain_text_parts in HT as HT'. destruct HT' as (_ & HT' & _).
  apply plain_text_parts in HU as HU'. destruct HU' as (_ & HU' & _).
  unfold format. rewrite wrapPass_id, classifyPass_join.
  cbn [map]. rewrite map_app. cbn [map].
  rewrite !classifyPass_heading by assumption.
  change (classifyPass (item_line first) :: map classifyPass (map item_line others))
    with (map classifyPass (map item_line (first :: others))).
  rewrite Hmap. cbn [map].
  change (item (snd first) :: map item (map snd others) ++ [strong U])
    with ((item (snd first) :: map item (map snd others)) ++ [strong U]).
  rewrite join_lines_after_feeds. cbn [after_feeds fold_right].
  fold (after_feeds (map item (map snd others)) (nl ++ strong U)).
  rewrite <- ?app_assoc.
  rewrite boundaryPass_heading_items_heading by assumption.
  rewrite after_feeds_join. rewrite map_map. now rewrite <- ?app_assoc.
Qed.

Lemma list_between_headings_witness :
  format (join_lines
            (heading_line (u "Pontos Fortes:")
               :: map item_line [(Bullet, u "bom gancho"); (Number (u "2"), u "ritmo")]
               ++ [heading_line (u "Resumo:")]))
  = u "<strong>Pontos Fortes:</strong><ul><li>bom gancho</li>" ++ nl
      ++ u "<li>ritmo</li></ul><strong>Resumo:</strong>".
Proof.
  exact (list_between_headings (u "Pontos Fortes:") (u "Resumo:")
           (Bullet, u "bom gancho") [(Number (u "2"), u "ritmo")]
           eq_refl eq_refl eq_refl).
Defined.

(** ** The payload of a data URL *)

Lemma no_sep_head (sep c : N) (s : str) :
  occurs [sep] (c :: s) = false -> (c =? sep) = false /\ occurs [sep] s = false.
Proof.
  intros H. apply occurs_cons in H as [H1 H2]. split; [|exact H2].
  cbn [starts_with] in H1. rewrite andb_true_r in H1. now rewrite N.eqb_sym.
Qed.

Lemma split_on_none (sep : N) (s : str) :
  occurs [sep] s = false -> split_on sep s = [s].
Proof.
  induction s as [|c s IH]; intros H; [reflexivity|].
  apply no_sep_head in H as [Hc H]. cbn [split_on]. now rewrite Hc, IH.
Qed.

Lemma split_on_first (sep : N) (h r : str) :
  occurs [sep] h = false -> split_on sep (h ++ sep :: r) = h :: split_on sep r.
Proof.
  induction h as [|c h IH]; intros H.
  - cbn [app split_on]. now rewrite N.eqb_refl.
  - apply no_sep_head in H as [Hc H]. cbn [app split_on]. now rewrite Hc, IH.
Qed.

(** From a data URL whose header has no comma the promise resolves with
    the text behind the first comma, up to the next comma if there is one:
    a payload without comma comes back whole. *)
Theorem base64_part_of_data_url (header payload more : str) :
  occurs (u ",") header = false ->
  occurs (u ",") payload = false ->
  convertFileToBase64 (ReadString (header ++ u "," ++ payload))
    = Resolved (Some payload)
  /\ convertFileToBase64 (ReadString (header ++ u "," ++ payload ++ u "," ++ more))
    = Resolved (Some payload).
Proof.
  intros Hh Hp. unfold convertFileToBase64, base64_part.
  change (u ",") with [44] in *. cbn [app].
  rewrite !split_on_first by assumption.
  now rewrite split_on_none by assumption.
Qed.

Lemma base64_part_of_data_url_witness :
  convertFileToBase64 (ReadString (u "data:video/mp4;base64" ++ u "," ++ u "AAAAIGZ0eXA="))
    = Resolved (Some (u "AAAAIGZ0eXA="))
  /\ convertFileToBase64
       (ReadString (u "data:video/mp4;base64" ++ u "," ++ u "AAAA" ++ u "," ++ u "IGZ0"))
    = Resolved (Some (u "AAAA")).
Proof.
  split.
  - apply (base64_part_of_data_url _ _ []); reflexivity.
  - apply base64_part_of_data_url; reflexivity.
Defined.

(** A result without a comma does not reject the promise: it resolves
    with [undefined]. *)
Theorem base64_part_without_comma (result : str) :
  occurs (u ",") result = false ->
  convertFileToBase64 (ReadString result) = Resolved None.
Proof.
  intros H. unfold convertFileToBase64, base64_part.
  change (u ",") with [44] in H. now rewrite split_on_none.
Qed.

Lemma base64_part_without_comma_witness :
  convertFileToBase64 (ReadString (u "data:")) = Resolved None.
Proof. apply base64_part_without_comma. reflexivity. Defined.

(** ** The service *)

Lemma falsy_key (apiKey : option str) :
  falsy apiKey = true -> getGeminiClient apiKey = Rejected (ErrorObject key_missing).
Proof. destruct apiKey as [[|c k]|]; [reflexivity | discriminate | reflexivity]. Qed.

(** Without a key, undefined or empty, no request is sent, whatever the
    model would answer, and the promise rejects with the error of
    [getGeminiClient] as it is, not wrapped by the [catch] block. *)
Theorem generate_without_key
    (apiKey : option str) (api : request -> api_end)
    (videoData : option (option str * str)) (prompt : str) :
  falsy apiKey = true ->
  generateVideoFeedback apiKey api videoData prompt
  = ([], Rejected (ErrorObject key_missing)).
Proof.
  intros H. unfold generateVideoFeedback. now rewrite falsy_key.
Qed.

Lemma generate_without_key_witness :
  generateVideoFeedback (Some []) (fun _ => Responded (Some (u "ok")))
    (Some (Some (u "AAAA"), u "video/mp4")) (u "feedback?")
  = ([], Rejected (ErrorObject key_missing)).
Proof. apply generate_without_key. reflexivity. Defined.

(** The promise resolves exactly when there is a key and the model
    answers the one request with a text that is not empty, and it resolves
    with that text. *)
Theorem generate_resolves_iff
    (apiKey : option str) (api : request -> api_end)
    (videoData : option (option str * str)) (prompt t : str) :
  snd (generateVideoFeedback apiKey api videoData prompt) = Resolved t
  <-> falsy apiKey = false
      /\ api (feedback_request videoData prompt) = Responded (Some t)
      /\ t <> []
      /\ fst (generateVideoFeedback apiKey api videoData prompt)
         = [feedback_request videoData prompt].
Proof.
  unfold generateVideoFeedback. split.
  - destruct apiKey as [[|c k]|]; cbn [getGeminiClient fst snd];
      [discriminate | | discriminate].
    destruct (api _) as [[[|d t']|]|reason]; try discriminate.
    intros [= <-]. repeat split; discriminate.
  - intros (Hk & Ha & Ht & _).
    destruct apiKey as [[|c k]|]; [discriminate | | discriminate].
    cbn [getGeminiClient snd]. rewrite Ha.
    destruct t; [congruence | reflexivity].
Qed.

Lemma generate_resolves_iff_witness :
  snd (generateVideoFeedback (Some (u "key"))
         (fun _ => Responded (Some (u "**Resumo:**")))
         (Some (Some (u "AAAA"), u "video/mp4")) (u "feedback?"))
  = Resolved (u "**Resumo:**").
Proof.
  apply generate_resolves_iff.
  repeat split; (reflexivity || discriminate).
Defined.

(** With a key, every rejection carries an [Error] whose message is the
    fixed frame around an inner message: that of the failed call, or the
    one for a missing or empty text. *)
Theorem generate_failure_is_wrapped
    (apiKey : option str) (api : request -> api_end)
    (videoData : option (option str * str)) (prompt : str) (e : thrown) :
  falsy apiKey = false ->
  snd (generateVideoFeedback apiKey api videoData prompt) = Rejected e ->
  exists inner,
    e = ErrorObject (failure_message inner)
    /\ ((exists reason,
           api (feedback_request videoData prompt) = ApiFailed reason
           /\ inner = message_of reason)
        \/ (exists text,
              api (feedback_request videoData prompt) = Responded text
              /\ falsy text = true
              /\ inner = u "No text feedback received from the model.")).
Proof.
  intros Hk. unfold generateVideoFeedback.
  destruct apiKey as [[|c k]|]; [discriminate | | discriminate].
  cbn [getGeminiClient snd].
  destruct (api _) as [[[|d t']|]|reason]; intros [= <-].
  - eexists. split; [reflexivity|]. right. now exists (Some []).
  - eexists. split; [reflexivity|]. right. now exists None.
  - eexists. split; [reflexivity|]. left. now exists reason.
Qed.

Lemma generate_failure_is_wrapped_witness :
  exists inner,
    ErrorObject (failure_message (u "No text feedback received from the model."))
    = ErrorObject (failure_message inner)
    /\ ((exists reason,
           (fun _ : request => Responded (Some [])) (feedback_request None (u "p"))
           = ApiFailed reason
           /\ inner = message_of reason)
        \/ (exists text,
              (fun _ : request => Responded (Some [])) (feedback_request None (u "p"))
              = Responded text
              /\ falsy text = true
              /\ inner = u "No text feedback received from the model.")).
Proof.
  apply (generate_failure_is_wrapped (Some (u "key"))
           (fun _ => Responded (Some [])) None (u "p")); reflexivity.
Defined.

(** ** The component *)

Lemma run_job_resolved (apiKey : option str) (api : request -> api_end)
    (r : read_end) (j : job) (reqs : list request) (t : str) :
  run_job apiKey api r j = (reqs, Resolved t) -> t <> [].
Proof.
  unfold run_job, generateVideoFeedback.
  destruct (convertFileToBase64 r) as [base64|e]; [|discriminate].
  destruct (getGeminiClient apiKey); [|discriminate].
  destruct (api _) as [[[|c t']|]|reason]; intros [= _ <-] || discriminate.
  discriminate.
Qed.

Lemma filter_out_one (url : nat) :
  filter (fun x => negb (Nat.eqb x url)) [url] = [].
Proof. cbn. now rewrite Nat.eqb_refl. Qed.

Lemma handleVideoSelected_shape (f : option file) (w : world) :
  reachable_shape w -> reachable_shape (handleVideoSelected f w).
Proof.
  intros (H1 & H2 & H3 & H4 & H5).
  destruct w as [[sel prev pr fb ld er] [lv nx] pend snt].
  cbn [state urls pending sent selectedVideoFile videoPreviewUrl prompt
       feedback isLoading error live next_url] in *.
  unfold handleVideoSelected, reachable_shape.
  cbn [state urls pending sent selectedVideoFile videoPreviewUrl prompt
       feedback isLoading error live next_url].
  assert (E : live (match prev with
                    | Some url => revokeObjectURL url {| live := lv; next_url := nx |}
                    | None => {| live := lv; next_url := nx |}
                    end) = []).
  { destruct prev as [url|]; subst lv; [apply filter_out_one | reflexivity]. }
  destruct (match prev with
            | Some url => revokeObjectURL url {| live := lv; next_url := nx |}
            | None => {| live := lv; next_url := nx |}
            end) as [lv1 nx1].
  cbn [live] in E. subst lv1.
  destruct f as [f|]; cbn [createObjectURL live next_url state urls pending
    selectedVideoFile videoPreviewUrl feedback isLoading error is_some].
  - repeat split; try reflexivity; try discriminate; [|now left].
    destruct H3 as [H3 | (Hj & Hl & _ & _)]; [now left | right; now repeat split].
  - repeat split; try reflexivity; try discriminate; [|now left].
    destruct H3 as [H3 | (Hj & Hl & _ & _)]; [now left | right; now repeat split].
Qed.

Lemma step_shape (apiKey : option str) (e : event) (w : world) :
  reachable_shape w -> reachable_shape (step apiKey e w).
Proof.
  intros H. destruct e as [f | p | | r answer]; cbn [step].
  - now apply handleVideoSelected_shape.
  - exact H.
  - destruct (button_enabled (state w)) eqn:Eb; [|exact H].
    unfold button_enabled in Eb. apply andb_true_iff in Eb as [El Ef].
    apply negb_true_iff in El.
    destruct H as (H1 & H2 & H3 & H4 & H5).
    unfold handleGenerateFeedback.
    destruct (selectedVideoFile (state w)) as [f|] eqn:Es; [|discriminate].
    unfold reachable_shape.
    cbn [state urls pending sent selectedVideoFile videoPreviewUrl prompt
         feedback isLoading error].
    repeat split; try assumption; try discriminate; [|now left].
    right. destruct H3 as [[Hp _] | (_ & Hl & _)]; [|congruence].
    rewrite Hp. repeat split. now eexists.
  - unfold finish_job. destruct (pending w) as [|j rest] eqn:Ep; [exact H|].
    destruct H as (H1 & H2 & H3 & H4 & H5).
    destruct H3 as [[Hp _] | ((j' & Hj) & Hl & Hf & He)]; [congruence|].
    rewrite Ep in Hj. injection Hj as -> ->.
    destruct (run_job apiKey (fun _ => answer) r j') as [reqs [t|err]] eqn:Er;
      unfold reachable_shape;
      cbn [state urls pending sent selectedVideoFile videoPreviewUrl prompt
           feedback isLoading error].
    + apply run_job_resolved in Er.
      repeat split; try assumption; [now left | now right | congruence].
    + repeat split; try assumption; [now left | now left].
Qed.

Lemma run_shape (apiKey : option str) (es : list event) :
  forall w, reachable_shape w -> reachable_shape (run apiKey es w).
Proof.
  induction es as [|e es IH]; intros w H; [exact H|].
  cbn [run fold_left]. apply IH. now apply step_shape.
Qed.

Lemma initial_shape : reachable_shape initial_world.
Proof. repeat split; try reflexivity; try discriminate; now left. Qed.

(** After any sequence of events a preview URL exists exactly when a file
    is selected, and the live object URLs of the browser are that one URL
    and nothing else: every URL made for an earlier selection has been
    revoked. *)
Theorem object_urls_do_not_leak
    (apiKey : option str) (es : list event) :
  let w := run apiKey es initial_world in
  is_some (videoPreviewUrl (state w)) = is_some (selectedVideoFile (state w))
  /\ live (urls w)
     = match videoPreviewUrl (state w) with Some url => [url] | None => [] end.
Proof.
  destruct (run_shape apiKey es _ initial_shape) as (H1 & H2 & _).
  now split.
Qed.

(** After any sequence of events at most one call of the service waits;
    [isLoading] is true exactly while one waits, and as long as it waits
    neither a feedback nor an error is shown. *)
Theorem one_call_at_a_time
    (apiKey : option str) (es : list event) :
  let w := run apiKey es initial_world in
  (length (pending w) <= 1)%nat
  /\ (isLoading (state w) = true <-> pending w <> [])
  /\ (isLoading (state w) = true ->
      feedback (state w) = None /\ error (state w) = None).
Proof.
  destruct (run_shape apiKey es _ initial_shape) as (_ & _ & H3 & _).
  cbv zeta.
  destruct H3 as [[Hp Hl] | ((j & Hj) & Hl & Hf & He)].
  - rewrite Hp, Hl. cbn [length]. repeat split; try lia; congruence.
  - rewrite Hj, Hl. cbn [length]. repeat split; try lia; try assumption.
    discriminate.
Qed.

(** After any sequence of events feedback and error are never both set,
    and a feedback that is set is not empty, so the right pane shows the
    formatted feedback and not the placeholder. *)
Theorem feedback_is_shown_formatted
    (apiKey : option str) (es : list event) :
  let w := run apiKey es initial_world in
  (feedback (state w) = None \/ error (state w) = None)
  /\ (forall t, feedback (state w) = Some t ->
                feedback_pane (state w) = Html (format t)).
Proof.
  destruct (run_shape apiKey es _ initial_shape) as (_ & _ & _ & H4 & H5).
  cbv zeta. split; [exact H4|].
  intros t Ht. unfold feedback_pane. rewrite Ht.
  destruct t; [|reflexivity]. now rewrite Ht in H5.
Qed.

Lemma run_job_sent (apiKey : option str) (api : request -> api_end)
    (r : read_end) (j : job) :
  fst (run_job apiKey api r j)
  = if falsy apiKey then []
    else match r with
         | ReadString result =>
             [{| model := u "gemini-2.5-flash";
                 parts := [InlineData (base64_part result) (file_type (job_file j));
                           TextPart (job_prompt j)] |}]
         | _ => []
         end.
Proof.
  unfold run_job, generateVideoFeedback.
  destruct r as [result | ev |]; cbn [convertFileToBase64];
    destruct apiKey as [[|c k]|]; reflexivity.
Qed.

Lemma run_snoc (apiKey : option str) (es : list event) (e : event) (w : world) :
  run apiKey (es ++ [e]) w = step apiKey e (run apiKey es w).
Proof. unfold run. now rewrite fold_left_app. Qed.

Lemma sent_from_more (es : list event) (e : event) (req : request) :
  sent_from es req -> sent_from (es ++ [e]) req.
Proof.
  intros (Hm & f & p & result & answer & Hf & Hp & Hr & Hparts).
  split; [exact Hm|]. exists f, p, result, answer.
  repeat split; try (apply in_or_app; now left); [|exact Hparts].
  destruct Hp as [Hp|Hp]; [now left | right; apply in_or_app; now left].
Qed.

Lemma step_traced (apiKey : option str) (es : list event) (e : event) (w : world) :
  traced es w -> traced (es ++ [e]) (step apiKey e w).
Proof.
  intros (Hf & Hp & Hj & Hs).
  assert (Hp' : prompt (state w) = default_prompt
                \/ In (EditPrompt (prompt (state w))) (es ++ [e])).
  { destruct Hp as [Hp|Hp]; [now left | right; apply in_or_app; now left]. }
  assert (Hj' : Forall (fun j => In (SelectVideo (Some (job_file j))) (es ++ [e])
                                /\ (job_prompt j = default_prompt
                                    \/ In (EditPrompt (job_prompt j)) (es ++ [e])))
                       (pending w)).
  { eapply Forall_impl; [|exact Hj]. intros j [H1 H2].
    split; [apply in_or_app; now left|].
    destruct H2 as [H2|H2]; [now left | right; apply in_or_app; now left]. }
  assert (Hs' : Forall (sent_from (es ++ [e])) (sent w)).
  { eapply Forall_impl; [|exact Hs]. intros req. apply sent_from_more. }
  assert (Hf' : forall f, selectedVideoFile (state w) = Some f ->
                          In (SelectVideo (Some f)) (es ++ [e])).
  { intros f H. apply in_or_app. left. now apply Hf. }
  assert (Hall : traced (es ++ [e]) w) by exact (conj Hf' (conj Hp' (conj Hj' Hs'))).
  destruct e as [f | p | | r answer]; cbn [step].
  - unfold handleVideoSelected, traced.
    destruct (match f with Some _ => _ | None => _ end) as [preview store].
    cbn [state pending sent selectedVideoFile prompt].
    repeat split; try assumption.
    intros f' ->. apply in_or_app. right. now left.
  - unfold traced. cbn [state pending sent selectedVideoFile prompt].
    repeat split; try assumption.
    right. apply in_or_app. right. now left.
  - destruct (button_enabled (state w)); [|exact Hall].
    unfold handleGenerateFeedback.
    destruct (selectedVideoFile (state w)) as [f|] eqn:Es;
      unfold traced; cbn [state pending sent selectedVideoFile prompt];
      rewrite ?Es; repeat split; try assumption.
    apply Forall_app. split; [exact Hj'|].
    constructor; [|constructor]. cbn [job_file job_prompt].
    split; [now apply Hf' | exact Hp'].
  - unfold finish_job. destruct (pending w) as [|j rest] eqn:Ep;
      [exact Hall|].
    pose proof (run_job_sent apiKey (fun _ => answer) r j) as Hreq.
    destruct (run_job apiKey (fun _ => answer) r j) as [reqs outcome].
    cbn [fst] in Hreq.
    pose proof (Forall_inv Hj') as [Hj1 Hj2].
    pose proof (Forall_inv_tail Hj') as Hrest.
    assert (Hnew : Forall (sent_from (es ++ [Settle r answer])) reqs).
    { rewrite Hreq. destruct (falsy apiKey); [constructor|].
      destruct r as [result | ev |]; constructor; [|constructor].
      split; [reflexivity|]. exists (job_file j), (job_prompt j), result, answer.
      repeat split; try assumption.
      apply in_or_app. right. now left. }
    destruct outcome as [t|err]; unfold traced;
      cbn [state pending sent selectedVideoFile prompt];
      repeat split; try assumption; apply Forall_app; now split.
Qed.

Lemma run_traced (apiKey : option str) (es : list event) :
  traced es (run apiKey es initial_world).
Proof.
  induction es as [|e es IH] using rev_ind.
  - split; [discriminate|]. split; [now left|]. split; constructor.
  - rewrite run_snoc. now apply step_traced.
Qed.

Lemma run_sent_nothing (apiKey : option str) (es : list event) :
  falsy apiKey = true -> forall w, sent w = [] -> sent (run apiKey es w) = [].
Proof.
  intros Hk. induction es as [|e es IH]; intros w H; [exact H|].
  cbn [run fold_left]. apply IH.
  destruct e as [f | p | | r answer]; cbn [step].
  - unfold handleVideoSelected.
    destruct (match f with Some _ => _ | None => _ end). exact H.
  - exact H.
  - destruct (button_enabled (state w)); [|exact H].
    unfold handleGenerateFeedback. now destruct (selectedVideoFile (state w)).
  - unfold finish_job. destruct (pending w) as [|j rest]; [exact H|].
    pose proof (run_job_sent apiKey (fun _ => answer) r j) as Hreq.
    destruct (run_job apiKey (fun _ => answer) r j) as [reqs outcome].
    cbn [fst sent] in *. rewrite Hk in Hreq. now rewrite H, Hreq.
Qed.

(** Every request the component sends, in any sequence of events, names
    the model of the source and has exactly two parts: first the inline
    data, which is the second piece of a read result delivered in the
    sequence, under the MIME type of a file selected in the sequence, and
    last the prompt, which is the first prompt or one typed in the
    sequence.  Settling a waiting call sends, with a key and a string as
    read result, the one request made of that result and of the file type
    and the prompt the call took when the button was clicked, and no
    request otherwise; without a key no request is sent at all. *)
Theorem requests_carry_video_and_prompt
    (apiKey : option str) (es : list event) :
  Forall (sent_from es) (sent (run apiKey es initial_world))
  /\ (forall w j rest r answer,
        pending w = j :: rest ->
        sent (step apiKey (Settle r answer) w)
        = sent w
            ++ (if falsy apiKey then []
                else match r with
                     | ReadString result =>
                         [{| model := u "gemini-2.5-flash";
                             parts :=
                               [InlineData (base64_part result)
                                           (file_type (job_file j));
                                TextPart (job_prompt j)] |}]
                     | _ => []
                     end))
  /\ (forall w f,
        button_enabled (state w) = true ->
        selectedVideoFile (state w) = Some f ->
        pending (step apiKey ClickGenerate w)
        = pending w ++ [{| job_file := f; job_prompt := prompt (state w) |}])
  /\ (falsy apiKey = true -> sent (run apiKey es initial_world) = []).
Proof.
  split; [apply run_traced|]. split; [|split].
  - intros w j rest r answer Hp. cbn [step]. unfold finish_job. rewrite Hp.
    pose proof (run_job_sent apiKey (fun _ => answer) r j) as Hreq.
    destruct (run_job apiKey (fun _ => answer) r j) as [reqs outcome].
    cbn [fst sent] in *. now rewrite Hreq.
  - intros w f He Hf. cbn [step]. rewrite He.
    unfold handleGenerateFeedback. now rewrite Hf.
  - intros Hk. now apply run_sent_nothing.
Qed.

Lemma requests_carry_video_and_prompt_witness :
  sent (run (Some (u "key"))
         [SelectVideo (Some {| file_name := u "a.mp4"; file_type := u "video/mp4" |});
          EditPrompt (u "O gancho funciona?");
          ClickGenerate;
          Settle (ReadString (u "data:video/mp4;base64,AAAA"))
                 (Responded (Some (u "ok")))]
         initial_world)
  = [{| model := u "gemini-2.5-flash";
        parts := [InlineData (Some (u "AAAA")) (u "video/mp4");
                  TextPart (u "O gancho funciona?")] |}]
  /\ Forall (sent_from
       [SelectVideo (Some {| file_name := u "a.mp4"; file_type := u "video/mp4" |});
        EditPrompt (u "O gancho funciona?");
        ClickGenerate;
        Settle (ReadString (u "data:video/mp4;base64,AAAA"))
               (Responded (Some (u "ok")))])
      (sent (run (Some (u "key"))
         [SelectVideo (Some {| file_name := u "a.mp4"; file_type := u "video/mp4" |});
          EditPrompt (u "O gancho funciona?");
          ClickGenerate;
          Settle (ReadString (u "data:video/mp4;base64,AAAA"))
                 (Responded (Some (u "ok")))]
         initial_world)).
Proof.
  split; [reflexivity|].
  apply (requests_carry_video_and_prompt (Some (u "key"))).
Defined.

(** A feedback can belong to a video that is no longer the selected one:
    when another file is selected while a call waits, the text the call
    resolves with is shown beside the new file. *)
Theorem feedback_of_replaced_video
    (apiKey : option str) (answer : api_end)
    (f1 f2 : file) (r : read_end) (reqs : list request) (t : str) :
  run_job apiKey (fun _ => answer) r
    {| job_file := f1; job_prompt := default_prompt |} = (reqs, Resolved t) ->
  let w := run apiKey
             [SelectVideo (Some f1); ClickGenerate; SelectVideo (Some f2);
              Settle r answer]
             initial_world in
  selectedVideoFile (state w) = Some f2
  /\ feedback (state w) = Some t
  /\ isLoading (state w) = false
  /\ sent w = reqs.
Proof.
  intros H. cbv zeta. unfold run. cbn [fold_left step].
  cbn [handleVideoSelected initial_world state urls pending sent videoPreviewUrl
       createObjectURL selectedVideoFile prompt isLoading initial_state
       button_enabled negb andb handleGenerateFeedback app live next_url
       revokeObjectURL feedback error].
  unfold finish_job.
  cbn [pending state urls sent handleVideoSelected videoPreviewUrl
       createObjectURL selectedVideoFile prompt isLoading app live next_url
       revokeObjectURL feedback error filter].
  rewrite H. cbn. repeat split; reflexivity.
Qed.

Lemma feedback_of_replaced_video_witness :
  selectedVideoFile
    (state (run (Some (u "key"))
       [SelectVideo (Some {| file_name := u "a.mp4"; file_type := u "video/mp4" |});
        ClickGenerate;
        SelectVideo (Some {| file_name := u "b.mov"; file_type := u "video/quicktime" |});
        Settle (ReadString (u "data:video/mp4;base64,AAAA"))
               (Responded (Some (u "**Resumo:** a")))]
       initial_world))
  = Some {| file_name := u "b.mov"; file_type := u "video/quicktime" |}
  /\ feedback
    (state (run (Some (u "key"))
       [SelectVideo (Some {| file_name := u "a.mp4"; file_type := u "video/mp4" |});
        ClickGenerate;
        SelectVideo (Some {| file_name := u "b.mov"; file_type := u "video/quicktime" |});
        Settle (ReadString (u "data:video/mp4;base64,AAAA"))
               (Responded (Some (u "**Resumo:** a")))]
       initial_world))
  = Some (u "**Resumo:** a").
Proof.
  destruct (feedback_of_replaced_video (Some (u "key"))
              (Responded (Some (u "**Resumo:** a")))
              {| file_name := u "a.mp4"; file_type := u "video/mp4" |}
              {| file_name := u "b.mov"; file_type := u "video/quicktime" |}
              (ReadString (u "data:video/mp4;base64,AAAA"))
              _ _ eq_refl) as (H1 & H2 & _).
  split; [exact H1 | exact H2].
Defined.

(** ** A blank line before the next heading *)

Lemma close_end_li_feeds (r : str) :
  closeBeforeBoldPass (u "</li>" ++ nl ++ nl ++ r)
  = u "</li>" ++ nl ++ nl ++ closeBeforeBoldPass r.
Proof. copy_token close_skip. Qed.

Lemma blank_end_li_feeds_strong (r : str) :
  blankLinePass (u "</li>" ++ nl ++ nl ++ u "<strong>" ++ r)
  = u "</li>" ++ nl ++ nl ++ u "<strong>" ++ blankLinePass r.
Proof. copy_token blank_skip. Qed.

Lemma open_after_items_blank (U : str) (items : list str) :
  occurs (u "<") U = false ->
  forallb (fun a => negb (occurs (u "<") a)) items = true ->
  openAfterBoldPass (after_feeds (map item items) (nl ++ nl ++ strong U))
  = after_feeds (map item items) (nl ++ nl ++ strong U).
Proof.
  intros HU. induction items as [|a items IH]; intros H.
  - cbn [map after_feeds fold_right]. unfold strong.
    rewrite !open_nl, open_strong, open_text by exact HU. reflexivity.
  - cbn [forallb] in H. apply andb_true_iff in H as [Ha H].
    apply negb_true_iff in Ha.
    cbn [map after_feeds fold_right].
    fold (after_feeds (map item items) (nl ++ nl ++ strong U)).
    unfold item at 1 3. rewrite <- ?app_assoc.
    rewrite open_nl, open_li, open_text, open_end_li, IH by assumption.
    reflexivity.
Qed.

Lemma close_after_items_blank (U : str) (items : list str) (a : str) :
  occurs (u "<") U = false ->
  occurs (u "<") a = false ->
  forallb (fun a => negb (occurs (u "<") a)) items = true ->
  closeBeforeBoldPass
    (a ++ u "</li>" ++ after_feeds (map item items) (nl ++ nl ++ strong U))
  = a ++ u "</li>" ++ after_feeds (map item items) (nl ++ nl ++ strong U).
Proof.
  intros HU. revert a. induction items as [|b items IH]; intros a Ha H.
  - cbn [map after_feeds fold_right]. unfold strong.
    rewrite close_text, close_end_li_feeds, close_strong, close_text
      by assumption.
    reflexivity.
  - cbn [forallb] in H. apply andb_true_iff in H as [Hb H].
    apply negb_true_iff in Hb.
    cbn [map after_feeds fold_right].
    fold (after_feeds (map item items) (nl ++ nl ++ strong U)).
    unfold item at 1 3. rewrite <- ?app_assoc.
    rewrite close_text, close_end_li_li, IH by assumption.
    reflexivity.
Qed.

Lemma blank_after_items_blank (U : str) (items : list str) (a : str) :
  occurs (u "<") U = false ->
  occurs (u "<") a = false ->
  forallb (fun a => negb (occurs (u "<") a)) items = true ->
  blankLinePass
    (a ++ u "</li>" ++ after_feeds (map item items) (nl ++ nl ++ strong U))
  = a ++ u "</li>" ++ after_feeds (map item items) (nl ++ nl ++ strong U).
Proof.
  intros HU. revert a. induction items as [|b items IH]; intros a Ha H.
  - cbn [map after_feeds fold_right]. unfold strong.
    rewrite blank_text, blank_end_li_feeds_strong, blank_text by assumption.
    reflexivity.
  - cbn [forallb] in H. apply andb_true_iff in H as [Hb H].
    apply negb_true_iff in Hb.
    cbn [map after_feeds fold_right].
    fold (after_feeds (map item items) (nl ++ nl ++ strong U)).
    unfold item at 1 3. rewrite <- ?app_assoc.
    rewrite blank_text, blank_end_li_li, IH by assumption.
    reflexivity.
Qed.

Lemma boundaryPass_heading_items_blank_heading (T U a : str) (items : list str) :
  occurs (u "<") T = false -> occurs (u "<") U = false ->
  occurs (u "<") a = false ->
  forallb (fun a => negb (occurs (u "<") a)) items = true ->
  boundaryPass
    (strong T ++ nl ++ item a
       ++ after_feeds (map item items) (nl ++ nl ++ strong U))
  = strong T ++ u "<ul>" ++ item a
      ++ after_feeds (map item items) (nl ++ nl ++ strong U).
Proof.
  intros HT HU Ha H. unfold boundaryPass.
  unfold strong at 1, item at 1. rewrite <- ?app_assoc.
  rewrite open_strong, open_text, open_match, open_text, open_end_li,
    open_after_items_blank by assumption.
  rewrite close_strong, close_text, close_end_strong_ul_li,
    close_after_items_blank by assumption.
  rewrite blank_strong, blank_text, blank_end_strong_ul_li,
    blank_after_items_blank by assumption.
  unfold strong at 2, item at 2. rewrite <- ?app_assoc. reflexivity.
Qed.

Lemma join_lines_after_feeds_blank (x : str) (xs : list str) (y : str) :
  join_lines (x :: xs ++ [[]; y]) = x ++ after_feeds xs (nl ++ nl ++ y).
Proof.
  revert x; induction xs as [|x' xs IH]; intros x; [reflexivity|].
  change (join_lines (x :: (x' :: xs) ++ [[]; y]))
    with (x ++ nl ++ join_lines (x' :: xs ++ [[]; y])).
  rewrite IH. cbn [after_feeds fold_right]. now rewrite <- ?app_assoc.
Qed.

(** With an empty line between the last list line and the next heading
    the container opened behind the first heading is not closed: the
    output has the opening tag and, behind the items, the two line feeds
    and the next bold element. *)
Theorem list_then_blank_line_stays_open
    (T U : str) (first : marker * str) (others : list (marker * str)) :
  plain_text T = true -> plain_text U = true ->
  forallb (fun mc => marker_ok (fst mc) && plain_text (snd mc))
          (first :: others) = true ->
  format (join_lines
            (heading_line T :: map item_line (first :: others)
               ++ [[]; heading_line U]))
  = strong T ++ u "<ul>"
      ++ join_lines (map (fun mc => item (snd mc)) (first :: others))
      ++ nl ++ nl ++ strong U.
Proof.
  intros HT HU H.
  assert (Hlt : forallb (fun a => negb (occurs (u "<") a)) (map snd others) = true).
  { cbn [forallb] in H. apply andb_true_iff in H as [_ H].
    rewrite forallb_forall in H |- *. intros c Hc.
    apply in_map_iff in Hc as (mc & <- & Hmc). specialize (H _ Hmc).
    apply andb_true_iff in H as [_ H].
    apply plain_text_parts in H as (_ & H & _). now rewrite H. }
  assert (Hmap : map classifyPass (map item_line (first :: others))
                 = map item (map snd (first :: others))).
  { rewrite !map_map. apply map_ext_in. intros mc Hmc.
    rewrite forallb_forall in H. now apply classifyPass_item_line, H. }
  pose proof H as H'. cbn [forallb] in H'. apply andb_true_iff in H' as [H1 _].
  apply andb_true_iff in H1 as [_ H1].
  apply plain_text_parts in H1 as (_ & H1 & _).
  apply plain_text_parts in HT as HT'. destruct HT' as (_ & HT' & _).
  apply plain_text_parts in HU as HU'. destruct HU' as (_ & HU' & _).
  unfold format. rewrite wrapPass_id, classifyPass_join.
  cbn [map]. rewrite map_app. cbn [map].
  rewrite !classifyPass_heading by assumption.
  change (classifyPass []) with (@nil N).
  change (classifyPass (item_line first) :: map classifyPass (map item_line others))
    with (map classifyPass (map item_line (first :: others))).
  rewrite Hmap. cbn [map].
  change (item (snd first) :: map item (map snd others) ++ [[]; strong U])
    with ((item (snd first) :: map item (map snd others)) ++ [[]; strong U]).
  rewrite join_lines_after_feeds_blank. cbn [after_feeds fold_right].
  fold (after_feeds (map item (map snd others)) (nl ++ nl ++ strong U)).
  rewrite <- ?app_assoc.
  rewrite boundaryPass_heading_items_blank_heading by assumption.
  rewrite after_feeds_join. rewrite map_map. now rewrite <- ?app_assoc.
Qed.

Lemma list_then_blank_line_stays_open_witness :
  format (join_lines
            (heading_line (u "Pontos Fortes:")
               :: map item_line [(Bullet, u "bom gancho"); (Bullet, u "ritmo")]
               ++ [[]; heading_line (u "Resumo:")]))
  = u "<strong>Pontos Fortes:</strong><ul><li>bom gancho</li>" ++ nl
      ++ u "<li>ritmo</li>" ++ nl ++ nl ++ u "<strong>Resumo:</strong>".
Proof.
  exact (list_then_blank_line_stays_open (u "Pontos Fortes:") (u "Resumo:")
           (Bullet, u "bom gancho") [(Bullet, u "ritmo")]
           eq_refl eq_refl eq_refl).
Defined.

(** ** What the passes keep *)

Lemma occurs_inv (w z : str) :
  occurs w z = true -> exists x y, z = x ++ w ++ y.
Proof.
  induction z as [|c z IH]; cbn [occurs]; intros H.
  - rewrite orb_false_r in H. destruct (starts_with_inv _ _ H) as [r Hr].
    now exists [], r.
  - apply orb_true_iff in H as [H|H].
    + destruct (starts_with_inv _ _ H) as [r Hr]. now exists [], r.
    + destruct (IH H) as (x & y & ->). now exists (c :: x), y.
Qed.

Lemma occurs_in_context (w a m b : str) :
  occurs w m = true -> occurs w (a ++ m ++ b) = true.
Proof.
  intros H. destruct (occurs_inv _ _ H) as (x & y & ->).
  replace (a ++ (x ++ w ++ y) ++ b) with ((a ++ x) ++ w ++ (y ++ b))
    by now rewrite <- !app_assoc.
  apply occurs_mid.
Qed.

(** The part of a text behind its last line terminator. *)
Lemma last_line_split (x : str) :
  exists x2, no_terminator x2 = true
    /\ (x = x2 \/ exists x0 t, isLineTerminator t = true /\ x = x0 ++ t :: x2).
Proof.
  induction x as [|a x (x2 & H2 & [-> | (x0 & t & Ht & ->)])].
  - exists []. split; [reflexivity | now left].
  - destruct (isLineTerminator a) eqn:Ea.
    + exists x2. split; [exact H2|]. right. now exists [], a.
    + exists (a :: x2). split; [|now left].
      cbn [no_terminator forallb]. now rewrite Ea.
  - exists x2. split; [exact H2|]. right. now exists (a :: x0), t.
Qed.

(** A pass that rewrites the two sides of a line terminator separately
    and keeps a text [w] of one line in every line keeps it in every
    subject. *)
Lemma line_pass_keeps (P : str -> str) (w : str) :
  (forall s t r, isLineTerminator t = true -> P (s ++ t :: r) = P s ++ t :: P r) ->
  (forall L, no_terminator L = true -> occurs w L = true -> occurs w (P L) = true) ->
  no_terminator w = true ->
  forall z, occurs w z = true -> occurs w (P z) = true.
Proof.
  intros Hline Hone Hw z Hz. destruct (occurs_inv _ _ Hz) as (x & y & ->).
  destruct (last_line_split x) as (x2 & Hx2 & Hx).
  destruct (greedy_dot_split y) as (Hy1 & r & Hy & Hr).
  set (y1 := greedy_dot y) in *.
  assert (Hin : occurs w (P (x2 ++ w ++ y1)) = true).
  { apply Hone; [|apply occurs_mid].
    now rewrite !no_terminator_app, Hx2, Hw, Hy1. }
  assert (Hmid : occurs w (P ((x2 ++ w ++ y1) ++ r)) = true).
  { destruct r as [|t' y2]; [now rewrite app_nil_r|].
    rewrite Hline by exact Hr.
    apply (occurs_in_context w [] _ (t' :: P y2)). exact Hin. }
  rewrite Hy. destruct Hx as [-> | (x0 & t & Ht & ->)].
  - replace (x2 ++ w ++ y1 ++ r) with ((x2 ++ w ++ y1) ++ r)
      by now rewrite <- !app_assoc.
    exact Hmid.
  - replace ((x0 ++ t :: x2) ++ w ++ y1 ++ r)
      with (x0 ++ t :: (x2 ++ w ++ y1) ++ r)
      by now rewrite <- !app_assoc.
    rewrite Hline by exact Ht.
    replace (P x0 ++ t :: P ((x2 ++ w ++ y1) ++ r))
      with ((P x0 ++ [t]) ++ P ((x2 ++ w ++ y1) ++ r) ++ [])
      by now rewrite app_nil_r, <- app_assoc.
    now apply occurs_in_context.
Qed.

(** A text whose head is none of the code units of [pre] occurs behind
    [pre] when it occurs in [pre ++ r]. *)
Lemma occurs_behind (h : N) (w pre r : str) :
  forallb (fun c => negb (c =? h)) pre = true ->
  occurs (h :: w) (pre ++ r) = true -> occurs (h :: w) r = true.
Proof.
  induction pre as [|a pre IH]; intros Hp H; [exact H|].
  cbn [forallb] in Hp. apply andb_true_iff in Hp as [Ha Hp].
  apply negb_true_iff in Ha.
  cbn [app occurs starts_with] in H.
  rewrite N.eqb_sym, Ha in H. cbn [andb orb] in H. now apply IH.
Qed.

Lemma occurs_item (w rest : str) :
  occurs w rest = true -> occurs w (item rest) = true.
Proof. intros H. unfold item. now apply occurs_in_context. Qed.

(** The bullet pass keeps a text of one line whose head is neither a
    hyphen nor a space. *)
Lemma bulletPass_keeps (h : N) (w z : str) :
  no_terminator (h :: w) = true ->
  (h =? 45) = false -> (h =? 32) = false ->
  occurs (h :: w) z = true -> occurs (h :: w) (bulletPass z) = true.
Proof.
  intros Hw H45 H32. apply line_pass_keeps; [| |exact Hw].
  - intros s t r Ht. unfold bulletPass.
    now apply (replace_line _ _ _ re_bullet_line_local).
  - intros L HL Ho. destruct (bullet_line L) eqn:Eb.
    + unfold bullet_line in Eb. destruct (starts_with_inv _ _ Eb) as [rest ->].
      rewrite no_terminator_app in HL. apply andb_true_iff in HL as [_ HL].
      rewrite bulletPass_bullet by exact HL.
      apply occurs_item. apply (occurs_behind h w (u "- ")); [|exact Ho].
      cbn [u map list_ascii_of_string forallb].
      change (N_of_ascii "-") with 45. change (N_of_ascii " ") with 32.
      rewrite (N.eqb_sym 45), (N.eqb_sym 32), H45, H32. reflexivity.
    + now rewrite bulletPass_not_bullet.
Qed.

Lemma digits_not_head (h : N) (ds : str) :
  isDigit h = false -> forallb isDigit ds = true ->
  forallb (fun c => negb (c =? h)) ds = true.
Proof.
  intros Hh. induction ds as [|d ds IH]; intros H; [reflexivity|].
  cbn [forallb] in *. apply andb_true_iff in H as [Hd H].
  rewrite (IH H), andb_true_r. apply negb_true_iff.
  destruct (N.eqb_spec d h) as [->|]; [congruence | reflexivity].
Qed.

(** The numbered pass keeps a text of one line whose head is no digit,
    no period and no space. *)
Lemma numberedPass_keeps (h : N) (w z : str) :
  no_terminator (h :: w) = true ->
  isDigit h = false -> (h =? 46) = false -> (h =? 32) = false ->
  occurs (h :: w) z = true -> occurs (h :: w) (numberedPass z) = true.
Proof.
  intros Hw Hd H46 H32. apply line_pass_keeps; [| |exact Hw].
  - intros s t r Ht. unfold numberedPass.
    now apply (replace_line _ _ _ re_numbered_line_local).
  - intros L HL Ho. destruct (numbered_line L) eqn:En.
    + destruct (digits_split L) as (Hds & Hl & _).
      unfold numbered_line in En. apply andb_true_iff in En as [E1 E2].
      destruct (starts_with_inv _ _ E2) as [rest Hrest].
      rewrite Hrest in Hl. rewrite Hl in HL, Ho |- *.
      rewrite !no_terminator_app in HL.
      apply andb_true_iff in HL as [_ HL]. apply andb_true_iff in HL as [_ HL].
      rewrite numberedPass_numbered; [| |exact Hds|exact HL].
      2:{ intros E. rewrite E in E1. discriminate E1. }
      apply occurs_item.
      apply (occurs_behind h w (u ". ")).
      { cbn [u map list_ascii_of_string forallb].
        change (N_of_ascii ".") with 46. change (N_of_ascii " ") with 32.
        rewrite (N.eqb_sym 46), (N.eqb_sym 32), H46, H32. reflexivity. }
      apply (occurs_behind h w (digits L)); [|exact Ho].
      now apply digits_not_head.
    + now rewrite numberedPass_not_numbered.
Qed.

Section LiteralKeeps.

Variables (g rest : str) (f : replacer).
Variables (wo wm wc : str).

Hypothesis f_same :
  forall m g' o1 o2 s1 s2, f m g' o1 s1 = f m g' o2 s2.

Hypothesis pattern_nonempty : g ++ rest <> [].

(** No match begins in the opening or in the middle of the text. *)
Hypothesis none_inside :
  forall u1 u2 y, wo ++ wm = u1 ++ u2 -> u2 <> [] ->
    starts_with (g ++ rest) (u2 ++ wc ++ y) = false.

(** The closing stays where the pass reaches it. *)
Hypothesis closing_stays :
  forall y, exists y',
    replace (re_literal g rest) f (wc ++ y) = wc ++ y'.

(** A match that runs into the text ends with its opening, and so does
    the replacement. *)
Hypothesis overlap_is_opening :
  forall x q y, x <> [] -> q <> [] -> g ++ rest = x ++ q ->
    starts_with q ((wo ++ wm ++ wc) ++ y) = true ->
    q = wo /\ exists r0, f (g ++ rest) g 0%nat [] = r0 ++ wo.

Lemma literal_copy (v r : str) :
  (forall u1 u2, v = u1 ++ u2 -> u2 <> [] ->
                 starts_with (g ++ rest) (u2 ++ r) = false) ->
  replace (re_literal g rest) f (v ++ r)
  = v ++ replace (re_literal g rest) f r.
Proof.
  induction v as [|c v IH]; intros H; [reflexivity|].
  cbn [app]. rewrite (literal_skip g rest f f_same).
  - rewrite IH; [reflexivity|].
    intros u1 u2 -> Hu2. apply (H (c :: u1) u2 eq_refl Hu2).
  - apply (H [] (c :: v) eq_refl). discriminate.
Qed.

Lemma literal_inside (u1 u2 y : str) :
  wo ++ wm = u1 ++ u2 ->
  exists y', replace (re_literal g rest) f (u2 ++ wc ++ y) = u2 ++ wc ++ y'.
Proof.
  intros E. destruct (closing_stays y) as [y' Hy'].
  exists y'. rewrite literal_copy, Hy'; [reflexivity|].
  intros v1 v2 -> Hv2. apply (none_inside (u1 ++ v1) v2); [|exact Hv2].
  now rewrite E, <- app_assoc.
Qed.

(** The pass keeps the text wherever it stands. *)
Lemma literal_keeps_text :
  forall n x y, (length x <= n)%nat ->
    exists x' y',
      replace (re_literal g rest) f (x ++ (wo ++ wm ++ wc) ++ y)
      = x' ++ (wo ++ wm ++ wc) ++ y'.
Proof.
  induction n as [|n IH]; intros x y Hn.
  - destruct x; [|cbn [length] in Hn; lia].
    destruct (literal_inside [] (wo ++ wm) y eq_refl) as [y' Hy'].
    exists [], y'. cbn [app]. rewrite <- !app_assoc in *. exact Hy'.
  - destruct x as [|a x].
    { destruct (literal_inside [] (wo ++ wm) y eq_refl) as [y' Hy'].
      exists [], y'. cbn [app]. rewrite <- !app_assoc in *. exact Hy'. }
    cbn [length] in Hn.
    destruct (starts_with (g ++ rest) ((a :: x) ++ (wo ++ wm ++ wc) ++ y)) eqn:Es.
    + destruct (starts_with_inv _ _ Es) as [r Hr].
      apply app_eq_app in Hr as [l [[Hx Hr] | [Hp Hw]]].
      * (* the match lies before the text *)
        destruct (g ++ rest) as [|c p'] eqn:Ep; [congruence|].
        assert (Hl : (length l <= n)%nat).
        { apply (f_equal (@length N)) in Hx. rewrite length_app in Hx.
          cbn [length] in Hx. lia. }
        destruct (IH l y Hl) as (x' & y' & Hxy).
        exists (f (c :: p') g 0%nat [] ++ x'), y'.
        rewrite Hx, <- !app_assoc, <- Ep.
        rewrite (literal_match g rest f f_same) by (rewrite Ep; discriminate).
        rewrite <- !app_assoc in Hxy. rewrite Hxy, Ep. reflexivity.
      * destruct l as [|c l].
        { (* the match ends where the text begins *)
          rewrite app_nil_r in Hp. cbn [app] in Hw.
          destruct (literal_inside [] (wo ++ wm) y eq_refl) as [y' Hy'].
          exists (f (g ++ rest) g 0%nat []), y'.
          rewrite <- Hp, Hw.
          rewrite (literal_match g rest f f_same) by exact pattern_nonempty.
          rewrite <- Hw. cbn [app] in Hy'. rewrite <- !app_assoc in *.
          now rewrite Hy'. }
        (* the match runs into the text *)
        destruct (overlap_is_opening (a :: x) (c :: l) y) as (Hq & r0 & Hrep);
          [discriminate | discriminate | exact Hp | |].
        { rewrite Hw. apply starts_with_app. }
        rewrite <- Hq in Hw. rewrite <- !app_assoc in Hw.
        apply app_inv_head in Hw.
        destruct (literal_inside wo wm y eq_refl) as [y' Hy'].
        exists r0, y'.
        replace ((a :: x) ++ (wo ++ wm ++ wc) ++ y)
          with ((g ++ rest) ++ wm ++ wc ++ y)
          by (rewrite Hp, Hq, <- !app_assoc; reflexivity).
        rewrite (literal_match g rest f f_same) by exact pattern_nonempty.
        rewrite Hrep, Hy', <- !app_assoc. reflexivity.
    + destruct (IH x y ltac:(lia)) as (x' & y' & Hxy).
      exists (a :: x'), y'. cbn [app] in *.
      rewrite (literal_skip g rest f f_same) by exact Es.
      now rewrite Hxy.
Qed.

Lemma literal_keeps (z : str) :
  occurs (wo ++ wm ++ wc) z = true ->
  occurs (wo ++ wm ++ wc) (replace (re_literal g rest) f z) = true.
Proof.
  intros H. destruct (occurs_inv _ _ H) as (x & y & ->).
  destruct (literal_keeps_text (length x) x y (le_n _)) as (x' & y' & E).
  replace (x ++ (wo ++ wm ++ wc) ++ y) with (x ++ (wo ++ wm ++ wc) ++ y) in *
    by reflexivity.
  rewrite E. apply occurs_mid.
Qed.

End LiteralKeeps.

Lemma starts_with_firstn_l (p a b : str) :
  starts_with p (a ++ b) = true -> starts_with (firstn (length a) p) a = true.
Proof.
  revert p; induction a as [|c a IH]; intros p H; [reflexivity|].
  destruct p as [|d p]; [reflexivity|].
  cbn [app starts_with length firstn] in *.
  apply andb_true_iff in H as [Hd H]. now rewrite Hd, IH.
Qed.

Lemma existsb_firstn_more {A} (P : A -> bool) (n m : nat) (l : list A) :
  (n <= m)%nat -> existsb P (firstn n l) = true -> existsb P (firstn m l) = true.
Proof.
  revert n m; induction l as [|a l IH]; intros n m Hnm H.
  - now rewrite firstn_nil in *.
  - destruct n as [|n]; [discriminate|]. destruct m as [|m]; [lia|].
    cbn [firstn existsb] in *. apply orb_true_iff in H as [H|H].
    + now rewrite H.
    + rewrite (IH n m) by (lia || assumption). apply orb_true_r.
Qed.

(** A pattern with a line terminator among its first ten code units
    matches nowhere in a bold element of one line before its closing tag. *)
Lemma none_inside_strong (p c : str) :
  existsb isLineTerminator (firstn 10 p) = true ->
  no_terminator c = true ->
  forall u1 u2 y, u "<strong>" ++ c = u1 ++ u2 -> u2 <> [] ->
    starts_with p (u2 ++ u "</strong>" ++ y) = false.
Proof.
  intros Hp Hc u1 u2 y E Hu2.
  destruct (starts_with p (u2 ++ u "</strong>" ++ y)) eqn:Es; [|reflexivity].
  rewrite app_assoc in Es. apply starts_with_firstn_l in Es.
  assert (Hu : no_terminator u2 = true).
  { assert (H : no_terminator (u1 ++ u2) = true)
      by (rewrite <- E, no_terminator_app, Hc; reflexivity).
    rewrite no_terminator_app in H. now apply andb_true_iff in H as [_ H]. }
  rewrite starts_with_terminator in Es; [discriminate| |].
  - rewrite no_terminator_app, Hu. reflexivity.
  - apply (existsb_firstn_more _ 10); [|exact Hp].
    rewrite length_app. destruct u2; [congruence|]. cbn. lia.
Qed.

Lemma close_end_strong (r : str) :
  closeBeforeBoldPass (u "</strong>" ++ r) = u "</strong>" ++ closeBeforeBoldPass r.
Proof. copy_token close_skip. Qed.

Lemma blank_end_strong (r : str) :
  blankLinePass (u "</strong>" ++ r) = u "</strong>" ++ blankLinePass r.
Proof. copy_token blank_skip. Qed.

Lemma open_end_strong (y : str) :
  exists y', openAfterBoldPass (u "</strong>" ++ y) = u "</strong>" ++ y'.
Proof.
  destruct (starts_with (u "</strong>" ++ nl ++ u "<li>") (u "</strong>" ++ y))
    eqn:Es.
  - destruct (starts_with_inv _ _ Es) as [r Hr].
    rewrite <- !app_assoc in Hr. apply app_inv_head in Hr. subst y.
    rewrite open_match. now eexists.
  - change (u "</strong>" ++ y) with (60 :: u "/strong>" ++ y) in *.
    rewrite open_skip by exact Es. rewrite open_text by reflexivity.
    now eexists.
Qed.

(** The suffixes of a known pattern, one by one: [Hp] says that the
    pattern is [x ++ q], [Hs] that [q] matches at a known text. *)
Ltac overlap_cases Hp Hs :=
  match type of Hp with
  | [] = ?x ++ ?q =>
      symmetry in Hp; apply app_eq_nil in Hp as [_ Hp]; congruence
  | _ :: _ = ?x ++ ?q =>
      destruct x as [|? x];
      [ cbn [app] in Hp; subst q; cbn in Hs;
        first [ discriminate Hs
              | split; [reflexivity | exists (u "</li></ul>"); reflexivity] ]
      | cbn [app] in Hp; injection Hp as _ Hp; overlap_cases Hp Hs ]
  end.

Lemma overlap_strong (g rest : str) (f : replacer) (c : str) :
  (g = u "</strong>" /\ rest = nl ++ u "<li>"
   \/ g = u "</li>" /\ rest = nl ++ u "<strong>"
      /\ f (g ++ rest) g 0%nat [] = u "</li></ul><strong>"
   \/ g = u "</li>" /\ rest = nl ++ nl ++ u "<li>") ->
  forall x q y, x <> [] -> q <> [] -> g ++ rest = x ++ q ->
    starts_with q ((u "<strong>" ++ c ++ u "</strong>") ++ y) = true ->
    q = u "<strong>" /\ exists r0, f (g ++ rest) g 0%nat [] = r0 ++ u "<strong>".
Proof.
  intros Hg x q y Hx Hq Hp Hs.
  destruct Hg as [[-> ->] | [(-> & -> & Hf) | [-> ->]]];
    try rewrite Hf;
    match type of Hp with ?P = _ =>
      let v := eval vm_compute in P in change P with v in Hp
    end;
    overlap_cases Hp Hs.
Qed.

(** The boundary passes keep every bold element of one line. *)
Lemma boundaryPass_keeps_strong (c z : str) :
  no_terminator c = true ->
  occurs (strong c) z = true -> occurs (strong c) (boundaryPass z) = true.
Proof.
  intros Hc H. unfold boundaryPass, strong in *.
  apply (literal_keeps (u "</li>") (nl ++ nl ++ u "<li>") (fun _ _ _ _ => u "</li></ul><strong>")
           (u "<strong>") c (u "</strong>"));
    [reflexivity | discriminate | now apply none_inside_strong
    | intros y; eexists; apply blank_end_strong
    | apply (overlap_strong (u "</li>") (nl ++ nl ++ u "<li>") (fun _ _ _ _ => u "</li></ul><strong>") c); right; right; now split |].
  apply (literal_keeps (u "</li>") (nl ++ u "<strong>") (fun _ _ _ _ => u "</li></ul><strong>")
           (u "<strong>") c (u "</strong>"));
    [reflexivity | discriminate | now apply none_inside_strong
    | intros y; eexists; apply close_end_strong
    | apply (overlap_strong (u "</li>") (nl ++ u "<strong>") (fun _ _ _ _ => u "</li></ul><strong>") c); right; left; now repeat split |].
  apply (literal_keeps (u "</strong>") (nl ++ u "<li>") (template [] (u "<ul><li>"))
           (u "<strong>") c (u "</strong>"));
    [reflexivity | discriminate | now apply none_inside_strong
    | exact open_end_strong
    | apply (overlap_strong (u "</strong>") (nl ++ u "<li>") (template [] (u "<ul><li>")) c); left; now split |].
  exact H.
Qed.

(** Every bold element of one line that the first pass writes is in the
    output of the chain. *)
Lemma format_keeps_strong (c s : str) :
  no_terminator c = true ->
  occurs (strong c) (boldPass s) = true -> occurs (strong c) (format s) = true.
Proof.
  intros Hc H. unfold format, classifyPass. rewrite wrapPass_id.
  apply boundaryPass_keeps_strong; [exact Hc|].
  assert (Hw : no_terminator (strong c) = true)
    by (unfold strong; rewrite !no_terminator_app, Hc; reflexivity).
  change (strong c) with (60 :: (u "strong>" ++ c ++ u "</strong>")) in *.
  apply numberedPass_keeps; try reflexivity; [exact Hw|].
  apply bulletPass_keeps; try reflexivity; [exact Hw|]. exact H.
Qed.

Lemma overlap_stars (g rest : str) (f : replacer) :
  (g = u "</strong>" /\ rest = nl ++ u "<li>"
   \/ g = u "</li>" /\ rest = nl ++ u "<strong>"
   \/ g = u "</li>" /\ rest = nl ++ nl ++ u "<li>") ->
  forall x q y, x <> [] -> q <> [] -> g ++ rest = x ++ q ->
    starts_with q (([] ++ u "**" ++ []) ++ y) = true ->
    q = [] /\ exists r0, f (g ++ rest) g 0%nat [] = r0 ++ [].
Proof.
  intros Hg x q y Hx Hq Hp Hs.
  destruct Hg as [[-> ->] | [[-> ->] | [-> ->]]];
    match type of Hp with ?P = _ =>
      let v := eval vm_compute in P in change P with v in Hp
    end;
    overlap_cases Hp Hs.
Qed.

Lemma none_inside_stars (p : str) :
  starts_with (u "<") p = true ->
  forall u1 u2 y, [] ++ u "**" = u1 ++ u2 -> u2 <> [] ->
    starts_with p (u2 ++ [] ++ y) = false.
Proof.
  intros Hp u1 u2 y E Hu2. destruct (starts_with_inv _ _ Hp) as [p' ->].
  destruct u2 as [|a u2]; [congruence|].
  assert (a = 42) as ->.
  { destruct u1 as [|b [|b' [|b'' u1]]]; cbn in E; congruence. }
  reflexivity.
Qed.

(** The boundary passes keep every pair of adjacent stars. *)
Lemma boundaryPass_keeps_stars (z : str) :
  occurs (u "**") z = true -> occurs (u "**") (boundaryPass z) = true.
Proof.
  intros H. unfold boundaryPass.
  change (u "**") with ([] ++ u "**" ++ []) in *.
  apply (literal_keeps (u "</li>") (nl ++ nl ++ u "<li>") (fun _ _ _ _ => u "</li></ul><strong>") [] (u "**") []);
    [reflexivity | discriminate | now apply none_inside_stars
    | intros y; now eexists
    | apply (overlap_stars (u "</li>") (nl ++ nl ++ u "<li>") (fun _ _ _ _ => u "</li></ul><strong>")); right; right; now split |].
  apply (literal_keeps (u "</li>") (nl ++ u "<strong>") (fun _ _ _ _ => u "</li></ul><strong>") [] (u "**") []);
    [reflexivity | discriminate | now apply none_inside_stars
    | intros y; now eexists
    | apply (overlap_stars (u "</li>") (nl ++ u "<strong>") (fun _ _ _ _ => u "</li></ul><strong>")); right; left; now split |].
  apply (literal_keeps (u "</strong>") (nl ++ u "<li>") (template [] (u "<ul><li>")) [] (u "**") []);
    [reflexivity | discriminate | now apply none_inside_stars
    | intros y; now eexists
    | apply (overlap_stars (u "</strong>") (nl ++ u "<li>") (template [] (u "<ul><li>"))); left; now split |].
  exact H.
Qed.

(** Every pair of adjacent stars that the first pass leaves is in the
    output of the chain. *)
Lemma format_keeps_stars (s : str) :
  occurs (u "**") (boldPass s) = true -> occurs (u "**") (format s) = true.
Proof.
  intros H. unfold format, classifyPass. rewrite wrapPass_id.
  apply boundaryPass_keeps_stars.
  change (u "**") with (42 :: u "*") in *.
  apply numberedPass_keeps; try reflexivity.
  apply bulletPass_keeps; try reflexivity. exact H.
Qed.

Lemma format_passes (s : str) :
  format s = boundaryPass (numberedPass (bulletPass (boldPass s))).
Proof. unfold format, classifyPass. apply wrapPass_id. Qed.

Lemma span_in_format (pre c post : str) :
  occurs (u "**") (pre ++ u "*") = false ->
  no_terminator c = true ->
  occurs (u "**") (c ++ u "*") = false ->
  occurs (strong c) (format (pre ++ u "**" ++ c ++ u "**" ++ post)) = true.
Proof.
  intros Hpre Ht Hc. apply format_keeps_strong; [exact Ht|].
  rewrite boldPass_span by assumption.
  change (u "<strong>" ++ c ++ u "</strong>" ++ boldPass post)
    with (u "<strong>" ++ c ++ u "</strong>" ++ boldPass post).
  replace (pre ++ u "<strong>" ++ c ++ u "</strong>" ++ boldPass post)
    with (pre ++ strong c ++ boldPass post)
    by (unfold strong; now rewrite <- !app_assoc).
  apply occurs_mid.
Qed.


